(** * Research agent: a shallow embedding of the orchestration core

    Source files embedded here:
    - [src/agent/state.py]  : [Document], [GraphError], [GraphState];
    - [src/agent/tools.py]  : [WebSearchTool.run_concurrent];
    - [src/agent/nodes.py]  : [log_error] and the four node functions;
    - [src/agent/graph.py]  : the three routing predicates and the graph.

    The language model chains and the search service are external
    collaborators.  A call to one of them either returns a value or raises;
    the embedding takes the outcome of each call as an input. *)

From Stdlib Require Import ZArith Lia Ascii String.
From stdpp Require Import base option list gmap strings pretty sorting.

Local Open Scope string_scope.
Local Open Scope list_scope.
Local Open Scope Z_scope.

(** ** Strings as Python uses them in this program *)

Module PyStr.

(** [needle in haystack] on [str]. *)
Fixpoint contains (needle haystack : string) : bool :=
  String.prefix needle haystack
  || match haystack with
     | EmptyString => false
     | String _ rest => contains needle rest
     end.

(** One character of [str.lower], on the ASCII range. *)
Definition lower_ascii (c : ascii) : ascii :=
  let n := nat_of_ascii c in
  if (65 <=? n)%nat && (n <=? 90)%nat then ascii_of_nat (n + 32) else c.

Fixpoint lower (s : string) : string :=
  match s with
  | EmptyString => EmptyString
  | String c rest => String (lower_ascii c) (lower rest)
  end.

(** [str.isspace] on one ASCII character: tab, line feed, vertical tab,
    form feed, carriage return, the four separators 28..31 and space. *)
Definition isspace (c : ascii) : bool :=
  let n := nat_of_ascii c in
  ((9 <=? n)%nat && (n <=? 13)%nat)
  || ((28 <=? n)%nat && (n <=? 32)%nat).

Fixpoint lstrip (s : string) : string :=
  match s with
  | EmptyString => EmptyString
  | String c rest => if isspace c then lstrip rest else s
  end.

(** Right strip, by recursion from the end: a space is dropped exactly
    when everything after it has been dropped. *)
Fixpoint rstrip (s : string) : string :=
  match s with
  | EmptyString => EmptyString
  | String c rest =>
      match rstrip rest with
      | EmptyString => if isspace c then EmptyString else String c EmptyString
      | kept => String c kept
      end
  end.

(** [s.strip()] *)
Definition strip (s : string) : string := rstrip (lstrip s).

(** ["".join(parts)] *)
Definition join_empty (parts : list string) : string :=
  foldr String.append EmptyString parts.

(** [str(n)] / [f"{n}"] for an [int]. *)
Definition of_int (n : Z) : string := pretty n.

End PyStr.

(** ** Data model ([state.py]) *)

Record Document := mkDocument {
  url : string;
  title : string;
  content : string
}.

Inductive Step := step_generate | step_search | step_reflect | step_synthesize.

Inductive ErrorType :=
  RateLimit | Timeout | EmptyResult | LLMFailure | HTTPError | UnknownError.

Record GraphError := mkGraphError {
  step : Step;
  error_type : ErrorType;
  message : string
}.

(** An entry of the [citations] list built by [synthesize_node]:
    [{"id": ..., "url": ..., "title": ...}]. *)
Record Citation := mkCitation {
  cit_id : Z;
  cit_url : string;
  cit_title : string
}.

Record GraphState := mkGraphState {
  question : string;
  queries : list string;
  documents : list Document;
  need_more : bool;
  final_answer : string;
  citations : list Citation;
  loop_count : Z;
  max_iter : Z;
  errors : list GraphError
}.

#[global] Instance Document_eq_dec : EqDecision Document.
Proof. solve_decision. Defined.
#[global] Instance Step_eq_dec : EqDecision Step.
Proof. solve_decision. Defined.
#[global] Instance ErrorType_eq_dec : EqDecision ErrorType.
Proof. solve_decision. Defined.
#[global] Instance GraphError_eq_dec : EqDecision GraphError.
Proof. solve_decision. Defined.
#[global] Instance Citation_eq_dec : EqDecision Citation.
Proof. solve_decision. Defined.

(** ** Collaborator calls *)

(** The exception classes the handlers of [nodes.py] tell apart:
    [openai.RateLimitError] and everything else under [Exception].
    [exc_str] is [str(e)]. *)
Inductive ExcClass := RateLimitError | OtherException.

Record Exc := mkExc {
  exc_class : ExcClass;
  exc_str : string
}.

(** What a call came back with. *)
Inductive Outcome (A : Type) :=
| Returned (a : A)
| Raised (e : Exc).
Arguments Returned {A} a.
Arguments Raised {A} e.

#[global] Instance Outcome_ret : MRet Outcome := @Returned.
#[global] Instance Outcome_bind : MBind Outcome := fun A B f m =>
  match m with
  | Returned a => f a
  | Raised e => Raised e
  end.

(** Structured outputs of the three chains ([nodes.py], pydantic models).
    [GenerateQueriesOutput] has the single field [queries]. *)
Record ReflectOutput := mkReflectOutput {
  ro_need_more : bool;
  ro_new_queries : option (list string)
}.

Record SynthesizeOutput := mkSynthesizeOutput {
  answer : string;
  cited_ids : list Z
}.

(** One call that leaves the core, with the arguments it is built from. *)
Inductive Call :=
| call_generate (question : string)
| call_search (queries : list string)
| call_reflect (question : string) (documents : list Document)
| call_synthesize (question : string) (documents : list Document).

Inductive Node := generate_queries | web_search | reflect | synthesize.

#[global] Instance Node_eq_dec : EqDecision Node.
Proof. solve_decision. Defined.

(** What a run leaves behind, in order: every collaborator call, and every
    node that returned together with the state after its update was merged. *)
Inductive Event :=
| ev_call (c : Call)
| ev_step (n : Node) (after : GraphState).

(** The collaborators.  Each answer may depend on everything that happened
    before the call, so a collaborator may answer differently from one round
    to the next. *)
Record Collaborators := mkCollaborators {
  generate_chain : list Event -> string -> Outcome (list string);
  search_tool : list Event -> list string -> Outcome (list Document);
  reflect_chain : list Event -> string -> list Document -> Outcome ReflectOutput;
  synthesize_chain :
    list Event -> string -> list Document -> Outcome SynthesizeOutput
}.

(** ** The monad of node code: a log of events, and exceptions *)

Definition M (A : Type) : Type := list Event -> Outcome A * list Event.

#[global] Instance M_ret : MRet M := fun A a log => (Returned a, log).
#[global] Instance M_bind : MBind M := fun A B f m log =>
  match m log with
  | (Returned a, log') => f a log'
  | (Raised e, log') => (Raised e, log')
  end.

(** [try: body / except Exception as e: handler e] *)
Definition try_except {A} (body : M A) (handler : Exc -> M A) : M A :=
  fun log =>
    match body log with
    | (Returned a, log') => (Returned a, log')
    | (Raised e, log') => handler e log'
    end.

Definition emit (ev : Event) : M unit := fun log => (Returned tt, log ++ [ev]).

(** A collaborator call: the answer is the collaborator's, the call is logged. *)
Definition call {A} (c : Call) (answer : list Event -> Outcome A) : M A :=
  fun log => (answer log, log ++ [ev_call c]).

(** ** Retrieval coordinator ([tools.py]) *)

Module WebSearchTool.

(** [tasks = [search_func(q) for q in queries]] followed by
    [asyncio.gather] with [return_exceptions=True]: one entry per query, in
    the order of the queries, holding the list a search returned or the
    exception it raised.  [search_func] gets the position of the task too, so
    two tasks for the same query may end differently. *)
Definition gather (search_func : nat -> string -> Outcome (list Document))
    (queries : list string) : list (Outcome (list Document)) :=
  imap search_func queries.

(** [for res in results_lists: if isinstance(res, list): flat_results.extend(res)] *)
Definition flatten (results_lists : list (Outcome (list Document)))
    : list Document :=
  foldl (fun flat_results res =>
           match res with
           | Returned docs => flat_results ++ docs
           | Raised _ => flat_results
           end) [] results_lists.

(** One turn of the de-duplication loop over [(unique_results, seen_urls)]. *)
Definition dedup_step (acc : list Document * gset string) (result : Document)
    : list Document * gset string :=
  let '(unique_results, seen_urls) := acc in
  if decide (url result ∈ seen_urls) then acc
  else (unique_results ++ [result], seen_urls ∪ {[ url result ]}).

Definition dedup (flat_results : list Document) : list Document :=
  fst (foldl dedup_step ([], ∅) flat_results).

Definition run_concurrent
    (search_func : nat -> string -> Outcome (list Document))
    (queries : list string) : list Document :=
  dedup (flatten (gather search_func queries)).

(** The spec's wording of the de-duplication: the first occurrence of a url
    wins, later documents with that url are dropped, order is kept. *)
Fixpoint first_seen_by_url (docs : list Document) : list Document :=
  match docs with
  | [] => []
  | d :: rest =>
      d :: filter (fun d' => url d' ≠ url d) (first_seen_by_url rest)
  end.

(** A search that raises, replaced by one that finds nothing. *)
Definition silenced (search_func : nat -> string -> Outcome (list Document))
    : nat -> string -> Outcome (list Document) :=
  fun i q =>
    match search_func i q with
    | Returned docs => Returned docs
    | Raised _ => Returned []
    end.

End WebSearchTool.

(** ** Node functions ([nodes.py]) *)

(** The dict a node returns: the keys it sets.  No node sets [question] or
    [max_iter]. *)
Record Update := mkUpdate {
  upd_queries : option (list string);
  upd_documents : option (list Document);
  upd_need_more : option bool;
  upd_final_answer : option string;
  upd_citations : option (list Citation);
  upd_loop_count : option Z;
  upd_errors : option (list GraphError)
}.

(** [{**a, **b}]: keys of [b] win. *)
Definition dict_merge (a b : Update) : Update :=
  {| upd_queries := upd_queries b ∪ upd_queries a;
     upd_documents := upd_documents b ∪ upd_documents a;
     upd_need_more := upd_need_more b ∪ upd_need_more a;
     upd_final_answer := upd_final_answer b ∪ upd_final_answer a;
     upd_citations := upd_citations b ∪ upd_citations a;
     upd_loop_count := upd_loop_count b ∪ upd_loop_count a;
     upd_errors := upd_errors b ∪ upd_errors a |}.

Definition log_error (s : Step) (ty : ErrorType) (msg : string) : Update :=
  {| upd_queries := None; upd_documents := None; upd_need_more := None;
     upd_final_answer := None; upd_citations := None; upd_loop_count := None;
     upd_errors := Some [ mkGraphError s ty msg ] |}.

Definition set_queries (qs : list string) : Update :=
  {| upd_queries := Some qs; upd_documents := None; upd_need_more := None;
     upd_final_answer := None; upd_citations := None; upd_loop_count := None;
     upd_errors := None |}.

Definition set_documents (docs : list Document) : Update :=
  {| upd_queries := None; upd_documents := Some docs; upd_need_more := None;
     upd_final_answer := None; upd_citations := None; upd_loop_count := None;
     upd_errors := None |}.

(** In each node, building the prompt and binding the structured output are
    taken to succeed; the outcome of [chain.invoke] is the collaborator's. *)
Section Nodes.

Variable env : Collaborators.

Definition generate_queries_node (state : GraphState) : M Update :=
  try_except
    (result ← call (call_generate (question state))
                   (fun log => generate_chain env log (question state));
     mret (set_queries result))
    (fun e =>
       match exc_class e with
       | RateLimitError =>
           mret (dict_merge (set_queries [])
                            (log_error step_generate RateLimit (exc_str e)))
       | OtherException =>
           mret (dict_merge (set_queries [])
                            (log_error step_generate LLMFailure (exc_str e)))
       end).

Definition web_search_node (state : GraphState) : M Update :=
  let queries := queries state in
  try_except
    (docs ← call (call_search queries)
                 (fun log => search_tool env log queries);
     let existing_docs := documents state in
     let all_docs := existing_docs ++ docs in
     mret (dict_merge (set_documents all_docs) (set_queries [])))
    (fun e =>
       if PyStr.contains "429" (exc_str e)
          || PyStr.contains "Too Many Requests" (exc_str e)
       then mret (dict_merge (set_documents (documents state))
                             (log_error step_search RateLimit (exc_str e)))
       else mret (dict_merge (set_documents (documents state))
                             (log_error step_search HTTPError (exc_str e)))).

Definition reflect_node (state : GraphState) : M Update :=
  let question := question state in
  let documents := documents state in
  result ← call (call_reflect question documents)
                (fun log => reflect_chain env log question documents);
  mret {| upd_queries := Some (default [] (ro_new_queries result));
          upd_documents := None;
          upd_need_more := Some (ro_need_more result);
          upd_final_answer := None; upd_citations := None;
          upd_loop_count := Some (loop_count state + 1);
          upd_errors := None |}.

End Nodes.

(** *** Synthesis and the citation remapper *)

(** Truth value of a Python list. *)
Definition truthy {A} (l : list A) : bool :=
  match l with
  | [] => false
  | _ :: _ => true
  end.

(** [for i, doc in enumerate(documents): original_citations_map[i + 1] = doc] *)
Definition original_citations_map (documents : list Document)
    : gmap Z Document :=
  foldl (fun m '(i, doc) => <[ Z.of_nat i + 1 := doc ]> m) ∅
        (imap pair documents).

(** The three containers the remapping loop fills. *)
Record Remap := mkRemap {
  final_citations_list : list Citation;
  seen_urls : gset string;
  original_to_new_id_map : gmap Z Z
}.

Definition remap_init : Remap := mkRemap [] ∅ ∅.

(** Body of [for original_id in cited_original_ids_from_llm]. *)
Definition remap_step (ocm : gmap Z Document) (r : Remap) (original_id : Z)
    : Remap :=
  match ocm !! original_id with
  | Some doc =>
      if decide (url doc ∈ seen_urls r) then r
      else
        let new_id := Z.of_nat (length (final_citations_list r)) + 1 in
        {| final_citations_list :=
             final_citations_list r ++ [ mkCitation new_id (url doc) (title doc) ];
           seen_urls := seen_urls r ∪ {[ url doc ]};
           original_to_new_id_map :=
             <[ original_id := new_id ]> (original_to_new_id_map r) |}
  | None => r
  end.

Definition remap (documents : list Document) (cited : list Z) : Remap :=
  foldl (remap_step (original_citations_map documents)) remap_init cited.

(** [f"[{original_to_new_id_map.get(_id, _id)}]"] *)
Definition marker (m : gmap Z Z) (_id : Z) : string :=
  "[" +:+ PyStr.of_int (default _id (m !! _id)) +:+ "]".

Definition markers (m : gmap Z Z) (ids : list Z) : string :=
  PyStr.join_empty (marker m <$> ids).

(** [citation_string_at_end], from the finished mapping. *)
Definition citation_string_at_end (documents : list Document) (cited : list Z)
    : string :=
  if truthy cited
  then markers (original_to_new_id_map (remap documents cited)) cited
  else "".

Definition error_answer : string :=
  "I'm unable to provide a complete answer at this time because of an error. Please try again later.".

Definition no_information_answer : string := "No information found.".

Definition set_answer (text : string) (cits : list Citation) : Update :=
  {| upd_queries := None; upd_documents := None; upd_need_more := None;
     upd_final_answer := Some text; upd_citations := Some cits;
     upd_loop_count := None; upd_errors := None |}.

Section Synthesis.

Variable env : Collaborators.

Definition synthesize_node (state : GraphState) : M Update :=
  let question := question state in
  let documents := documents state in
  if truthy (errors state) then mret (set_answer error_answer [])
  else if negb (truthy documents) then mret (set_answer no_information_answer [])
  else
    llm_result ← call (call_synthesize question documents)
                      (fun log => synthesize_chain env log question documents);
    let final_answer_text := answer llm_result in
    let cited_original_ids_from_llm := cited_ids llm_result in
    let final_citations_list :=
      final_citations_list (remap documents cited_original_ids_from_llm) in
    let full_answer :=
      PyStr.strip (final_answer_text
                   +:+ citation_string_at_end documents
                         cited_original_ids_from_llm) in
    mret (set_answer full_answer final_citations_list).

End Synthesis.

(** ** The graph ([graph.py]) *)

Inductive Route := next_step | end_step.

Definition state_has_error (state : GraphState) : bool := truthy (errors state).

Definition should_continue_after_generate (state : GraphState) : Route :=
  if state_has_error state then end_step else next_step.

Definition should_continue_after_search (state : GraphState) : Route :=
  if state_has_error state || negb (truthy (documents state)) then end_step
  else next_step.

Definition should_continue_after_reflect (state : GraphState) : Route :=
  if state_has_error state then end_step
  else if need_more state && (loop_count state <? max_iter state) then next_step
  else end_step.

(** The edges: [None] is [END]. *)
Definition next_node (n : Node) (state : GraphState) : option Node :=
  match n with
  | generate_queries =>
      match should_continue_after_generate state with
      | next_step => Some web_search
      | end_step => Some synthesize
      end
  | web_search =>
      match should_continue_after_search state with
      | next_step => Some reflect
      | end_step => Some synthesize
      end
  | reflect =>
      match should_continue_after_reflect state with
      | next_step => Some web_search
      | end_step => Some synthesize
      end
  | synthesize => None
  end.

(** How the graph merges a node's dict into the state: [GraphState] declares
    no reducer for any key, so a key the node returned replaces the state's
    value and every other key keeps it. *)
Definition apply_update (state : GraphState) (u : Update) : GraphState :=
  {| question := question state;
     queries := default (queries state) (upd_queries u);
     documents := default (documents state) (upd_documents u);
     need_more := default (need_more state) (upd_need_more u);
     final_answer := default (final_answer state) (upd_final_answer u);
     citations := default (citations state) (upd_citations u);
     loop_count := default (loop_count state) (upd_loop_count u);
     max_iter := max_iter state;
     errors := default (errors state) (upd_errors u) |}.

Section Graph.

Variable env : Collaborators.

Definition node_function (n : Node) : GraphState -> M Update :=
  match n with
  | generate_queries => generate_queries_node env
  | web_search => web_search_node env
  | reflect => reflect_node env
  | synthesize => synthesize_node env
  end.

(** Run the graph from node [n]: call the node, merge its dict, follow the
    edge.  [None] is returned when [fuel] nodes have run and the graph has
    not reached [END]. *)
Fixpoint run (fuel : nat) (n : Node) (state : GraphState)
    : M (option GraphState) :=
  match fuel with
  | O => mret None
  | S fuel' =>
      u ← node_function n state;
      let state' := apply_update state u in
      _ ← emit (ev_step n state');
      match next_node n state' with
      | None => mret (Some state')
      | Some n' => run fuel' n' state'
      end
  end.

(** [app.invoke(initial_state)]: the entry point is [generate_queries]. *)
Definition invoke (fuel : nat) (initial_state : GraphState)
    : Outcome (option GraphState) * list Event :=
  run fuel generate_queries initial_state [].

End Graph.

(** [main.py]: the state a run starts from. *)
Definition initial_state (question : string) (MAX_ITER : Z) : GraphState :=
  {| question := question; queries := []; documents := []; need_more := false;
     final_answer := ""; citations := []; loop_count := 0;
     max_iter := MAX_ITER; errors := [] |}.

(** *** Reading the log *)

Definition is_search_call (ev : Event) : bool :=
  match ev with
  | ev_call (call_search _) => true
  | _ => false
  end.

Definition is_step_of (n : Node) (ev : Event) : bool :=
  match ev with
  | ev_step n' _ => bool_decide (n' = n)
  | _ => false
  end.

(** Number of times the search tool was invoked. *)
Definition search_calls (log : list Event) : nat :=
  length (filter (fun ev => is_search_call ev = true) log).

(** The nodes that ran to completion, in order. *)
Definition steps (log : list Event) : list (Node * GraphState) :=
  omap (fun ev => match ev with
                  | ev_step n after => Some (n, after)
                  | ev_call _ => None
                  end) log.

Definition is_call (ev : Event) : bool :=
  match ev with
  | ev_call _ => true
  | ev_step _ _ => false
  end.

(** Number of times the web-search node ran. *)
Definition web_search_steps (log : list Event) : nat :=
  length (filter (fun ev => is_step_of web_search ev = true) log).

(** Search rounds still possible when the graph is about to run node [n] in
    [state]: the rounds the loop-back edge can still grant, plus the round
    that is reached without asking it. *)
Definition rounds_left (n : Node) (state : GraphState) : nat :=
  let granted := Z.to_nat (max_iter state - loop_count state - 1) in
  match n with
  | generate_queries | web_search => S granted
  | reflect => granted
  | synthesize => O
  end.

(** Nodes that can still run, at most, from node [n] in [state]. *)
Definition nodes_left (n : Node) (state : GraphState) : nat :=
  let granted := Z.to_nat (max_iter state - loop_count state - 1) in
  match n with
  | generate_queries => (4 + 2 * granted)%nat
  | web_search => (3 + 2 * granted)%nat
  | reflect => (2 + 2 * granted)%nat
  | synthesize => 1%nat
  end.

(** The state synthesis leaves when it takes its error branch. *)
Definition apologised (s : GraphState) : GraphState :=
  apply_update s (set_answer error_answer []).

(** What follows, in the events [out] of a run that ended with [res], a step
    other than synthesis that left [errors] non-empty: one synthesis step on
    its error branch, which ends the run; or nothing, if the fuel ended
    there. *)
Definition short_circuits (res : Outcome (option GraphState))
    (out : list Event) : Prop :=
  ∀ pre m t post,
    out = pre ++ ev_step m t :: post → m ≠ synthesize → errors t ≠ [] →
    (post = [] ∧ res = Returned None)
    ∨ (post = [ev_step synthesize (apologised t)]
       ∧ res = Returned (Some (apologised t))).

(** ** The test suite's reading of the rate-limit answer ([tests/test_agent.py]) *)

(** [any(p in final_answer.lower() for p in [...])] of
    [test_agent_rate_limit_error]. *)
Definition mentions_rate_limiting (final_answer : string) : bool :=
  existsb (fun p => PyStr.contains p (PyStr.lower final_answer))
    [ "rate limit"; "too many requests"; "try again later";
      "temporarily unavailable"; "service unavailable" ].

(** ** The search functions of [tools.py] *)

(** Truth value of [os.getenv(key)]: the variable is set and not empty. *)
Definition getenv_truthy (environ : gmap string string) (key : string) : bool :=
  match environ !! key with
  | Some value => negb (String.eqb value "")
  | None => false
  end.

(** The Tavily client as [tavily_web_search] uses it, task by task: building
    [TavilySearch(max_results=3)], and [await search.arun(query)], whose dict
    is kept as its ['results'] entry, if it has one; each result is a dict of
    strings. *)
Record Tavily := mkTavily {
  TavilySearch : nat -> Outcome unit;
  arun : nat -> string -> Outcome (option (list (gmap string string)))
}.

(** One entry of [parsed_results]. *)
Definition parse_result (res : gmap string string) : Document :=
  {| url := default "" (res !! "url");
     title := default "" (res !! "title");
     content := default (default "" (res !! "snippet")) (res !! "content") |}.

Definition mock_web_search (query : string) : Outcome (list Document) :=
  Returned [].

Definition tavily_web_search (environ : gmap string string) (tavily : Tavily)
    (task : nat) (query : string) : Outcome (list Document) :=
  if negb (getenv_truthy environ "TAVILY_API_KEY") then Returned []
  else
    _ ← TavilySearch tavily task;
    match arun tavily task query with
    | Returned raw_results =>
        let results_list := default [] raw_results in
        Returned (parse_result <$> results_list)
    | Raised _ => Returned []
    end.

(** The choice of [search_func] at the head of [run_concurrent]. *)
Definition search_func (environ : gmap string string) (tavily : Tavily)
    : nat -> string -> Outcome (list Document) :=
  if getenv_truthy environ "TAVILY_API_KEY"
  then tavily_web_search environ tavily
  else fun _ => mock_web_search.

(** [WebSearchTool().run_concurrent(queries)] in a given environment. *)
Definition web_search_tool (environ : gmap string string) (tavily : Tavily)
    (queries : list string) : list Document :=
  WebSearchTool.run_concurrent (search_func environ tavily) queries.

(** Collaborators whose search tool is the module's own [WebSearchTool]; the
    Tavily service may answer differently from one round to the next. *)
Definition with_web_search_tool (environ : gmap string string)
    (tavily : list Event -> Tavily) (env : Collaborators) : Collaborators :=
  {| generate_chain := generate_chain env;
     search_tool := fun log queries =>
       Returned (web_search_tool environ (tavily log) queries);
     reflect_chain := reflect_chain env;
     synthesize_chain := synthesize_chain env |}.

(** ** The command line ([main.py]) *)

(** How the process ends: [sys.exit(code)] after the lines written to
    stderr, or a normal end after printing [output], kept here as the dict
    handed to [json.dumps].  [recursion_limit] stands for a graph that was
    stopped before reaching [END]. *)
Inductive ProcessResult :=
| exited (code : Z) (stderr : list string)
| printed (answer : string) (citations : list Citation)
| recursion_limit.

(** The double quote character. *)
Definition dquote : string := String (ascii_of_nat 34) EmptyString.

Definition usage : string :=
  "Usage: docker compose run --rm agent " +:+ dquote +:+ "<question>" +:+ dquote.

Definition MAX_ITER : Z := 2.

Definition run_agent (env : Collaborators) (fuel : nat) (argv : list string)
    : ProcessResult * list Event :=
  match argv with
  | _ :: question :: _ =>
      match invoke env fuel (initial_state question MAX_ITER) with
      | (Returned (Some final_state), log) =>
          (printed (final_answer final_state) (citations final_state), log)
      | (Returned None, log) => (recursion_limit, log)
      | (Raised _, log) => (exited 1 [], log)
      end
  | _ => (exited 1 [ usage ], [])
  end.

(** ** Node updates, case by case *)

(** The dicts a node can return in [state]. *)
Inductive returns (state : GraphState) : Node -> Update -> Prop :=
| returns_queries qs :
    returns state generate_queries (set_queries qs)
| returns_generate_error ty msg :
    returns state generate_queries
      (dict_merge (set_queries []) (log_error step_generate ty msg))
| returns_documents docs :
    returns state web_search
      (dict_merge (set_documents (documents state ++ docs)) (set_queries []))
| returns_search_error ty msg :
    returns state web_search
      (dict_merge (set_documents (documents state))
         (log_error step_search ty msg))
| returns_reflection r :
    returns state reflect
      {| upd_queries := Some (default [] (ro_new_queries r));
         upd_documents := None;
         upd_need_more := Some (ro_need_more r);
         upd_final_answer := None; upd_citations := None;
         upd_loop_count := Some (loop_count state + 1);
         upd_errors := None |}
| returns_answer text cits :
    returns state synthesize (set_answer text cits).

(** The states of the completed steps, in order. *)
Definition states (log : list Event) : list GraphState := snd <$> steps log.

Definition reflect_steps (log : list Event) : nat :=
  length (filter (fun ev => is_step_of reflect ev = true) log).

(** The text uses ASCII characters only; on such text [PyStr.lower] and
    [PyStr.strip] are Python's [lower] and [strip]. *)
Definition ascii_only (s : string) : bool :=
  forallb (fun c => (nat_of_ascii c <? 128)%nat) (list_ascii_of_string s).

(** ** Concrete scenarios *)

Module Scenario.

Definition docA : Document := mkDocument "url1" "A" "a".
Definition docB : Document := mkDocument "url2" "B" "b".
(** A second page served under the url of [docA]. *)
Definition docA' : Document := mkDocument "url1" "A again" "other text".

Definition quota : Exc := mkExc RateLimitError "quota exceeded".
Definition http_429 : Exc :=
  mkExc OtherException "429, message='Too Many Requests', url='https://api'".

(** Every collaborator answers, reflection always wants more. *)
Definition eager : Collaborators :=
  {| generate_chain := fun _ _ => Returned [ "q" ];
     search_tool := fun _ _ => Returned [ docA ];
     reflect_chain := fun _ _ _ => Returned (mkReflectOutput true (Some [ "more" ]));
     synthesize_chain := fun _ _ _ => Returned (mkSynthesizeOutput "Paris." [ 1 ]) |}.

(** The search tool of [test_agent_rate_limit_error]. *)
Definition rate_limited : Collaborators :=
  {| generate_chain := fun _ _ => Returned [ "capital of France" ];
     search_tool := fun _ _ => Raised http_429;
     reflect_chain := fun _ _ _ => Returned (mkReflectOutput false None);
     synthesize_chain := fun _ _ _ => Returned (mkSynthesizeOutput "Paris." [ 1 ]) |}.

(** Search works, the reflection chain hits its quota. *)
Definition reflect_fails : Collaborators :=
  {| generate_chain := fun _ _ => Returned [ "q" ];
     search_tool := fun _ _ => Returned [ docA ];
     reflect_chain := fun _ _ _ => Raised quota;
     synthesize_chain := fun _ _ _ => Returned (mkSynthesizeOutput "Paris." [ 1 ]) |}.

(** The real tool over a search function that finds [docA'] for any query. *)
Definition second_round : Collaborators :=
  {| generate_chain := fun _ _ => Returned [ "q" ];
     search_tool := fun _ qs =>
       Returned (WebSearchTool.run_concurrent (fun _ _ => Returned [ docA' ]) qs);
     reflect_chain := fun _ _ _ => Returned (mkReflectOutput false None);
     synthesize_chain := fun _ _ _ => Returned (mkSynthesizeOutput "Paris." [ 1 ]) |}.

(** A state in the middle of a run: one document held, one query pending. *)
Definition holding_docA : GraphState :=
  {| question := "Q"; queries := [ "q2" ]; documents := [ docA ];
     need_more := true; final_answer := ""; citations := [];
     loop_count := 1; max_iter := 2; errors := [] |}.

(** No document, one recorded error. *)
Definition failed_search : GraphState :=
  {| question := "Q"; queries := [ "q" ]; documents := [];
     need_more := false; final_answer := ""; citations := [];
     loop_count := 0; max_iter := 2;
     errors := [ mkGraphError step_search HTTPError "boom" ] |}.

(** Two documents held, and a synthesis chain that cites 2, 1, 2. *)
Definition holding_two : GraphState :=
  {| question := "Q"; queries := []; documents := [ docA; docB ];
     need_more := false; final_answer := ""; citations := [];
     loop_count := 1; max_iter := 2; errors := [] |}.

Definition cites_212 : Collaborators :=
  {| generate_chain := fun _ _ => Returned [ "q" ];
     search_tool := fun _ _ => Returned [ docA; docB ];
     reflect_chain := fun _ _ _ => Returned (mkReflectOutput false None);
     synthesize_chain := fun _ _ _ =>
       Returned (mkSynthesizeOutput "Paris is the capital. " [ 2; 1; 2 ]) |}.

(** A batch of three searches whose second task raises; the first and the
    third both find [docA], [docB] and then [docA']. *)
Definition second_task_fails : nat -> string -> Outcome (list Document) :=
  fun i _ =>
    if decide (i = 1%nat) then Raised (mkExc OtherException "timed out")
    else Returned [ docA; docB; docA' ].

(** The rate-limited run, state by state. *)
Definition after_generate : GraphState :=
  apply_update (initial_state "What is the capital of France?" 2)
    (set_queries [ "capital of France" ]).

Definition after_failed_search : GraphState :=
  apply_update after_generate
    (dict_merge (set_documents [])
       (log_error step_search RateLimit (exc_str http_429))).

(** Environments and Tavily services. *)
Definition no_key : gmap string string := ∅.
Definition with_key : gmap string string :=
  {[ "TAVILY_API_KEY" := "tvly-key" ]}.

Definition tavily_down : Tavily :=
  {| TavilySearch := fun _ => Returned tt;
     arun := fun _ _ => Raised (mkExc OtherException "connection refused") |}.

(** One result per query, without a [content] key. *)
Definition tavily_up : Tavily :=
  {| TavilySearch := fun _ => Returned tt;
     arun := fun _ _ =>
       Returned (Some [ {[ "url" := "url1"; "title" := "A"; "snippet" := "a" ]} ]) |}.

(** The search tool of [test_agent_timeout_error]. *)
Definition timed_out : Collaborators :=
  {| generate_chain := fun _ _ => Returned [ "capital of France" ];
     search_tool := fun _ _ => Raised (mkExc OtherException "Request timed out");
     reflect_chain := fun _ _ _ => Returned (mkReflectOutput false None);
     synthesize_chain := fun _ _ _ => Returned (mkSynthesizeOutput "Paris." [ 1 ]) |}.

(** A Tavily service that answers every call with HTTP 429. *)
Definition tavily_429 : Tavily :=
  {| TavilySearch := fun _ => Returned tt;
     arun := fun _ _ => Raised http_429 |}.

(** A synthesis chain whose answer has a space at both ends and cites
    nothing. *)
Definition padded : Collaborators :=
  {| generate_chain := fun _ _ => Returned [ "q" ];
     search_tool := fun _ _ => Returned [ docA; docB ];
     reflect_chain := fun _ _ _ => Returned (mkReflectOutput false None);
     synthesize_chain := fun _ _ _ =>
       Returned (mkSynthesizeOutput " Paris. " []) |}.

End Scenario.

(** * Properties *)

(** ** Retrieval coordinator *)

Section RetrievalCoordinator.

Import WebSearchTool.

Implicit Types (docs flat : list Document) (seen : gset string).

Lemma flatten_from acc (rs : list (Outcome (list Document))) :
  foldl (fun flat_results res =>
           match res with
           | Returned docs => flat_results ++ docs
           | Raised _ => flat_results
           end) acc rs
  = acc ++ flatten rs.
Proof.
  unfold flatten. revert acc.
  induction rs as [|r rs IH] using rev_ind; intros acc; simpl.
  - by rewrite app_nil_r.
  - rewrite !foldl_app; simpl. rewrite IH.
    destruct r; [by rewrite app_assoc | done].
Qed.

Lemma flatten_cons r (rs : list (Outcome (list Document))) :
  flatten (r :: rs)
  = match r with Returned docs => docs | Raised _ => [] end ++ flatten rs.
Proof. unfold flatten at 1; simpl. rewrite flatten_from. by destruct r. Qed.

Lemma flatten_app (rs1 rs2 : list (Outcome (list Document))) :
  flatten (rs1 ++ rs2) = flatten rs1 ++ flatten rs2.
Proof.
  induction rs1 as [|r rs1 IH]; simpl; [done|].
  by rewrite !flatten_cons, IH, app_assoc.
Qed.

(** A task that raised adds nothing to the flat list. *)
Lemma flatten_raised e (rs1 rs2 : list (Outcome (list Document))) :
  flatten (rs1 ++ Raised e :: rs2) = flatten (rs1 ++ rs2).
Proof. by rewrite !flatten_app, flatten_cons. Qed.

Lemma flatten_silenced search_func queries :
  flatten (gather (silenced search_func) queries)
  = flatten (gather search_func queries).
Proof.
  unfold gather. revert search_func.
  induction queries as [|q qs IH]; intros f; [done|].
  rewrite !imap_cons, !flatten_cons.
  f_equal.
  - unfold silenced. by destruct (f 0%nat q).
  - apply (IH (f ∘ S)).
Qed.

Lemma first_seen_filter (P : Document -> Prop) `{!∀ d, Decision (P d)} docs :
  (∀ d d', url d = url d' → P d → P d') →
  filter P (first_seen_by_url docs) = first_seen_by_url (filter P docs).
Proof.
  intros HP.
  induction docs as [|d docs IH]; [done|]. simpl.
  rewrite !filter_cons. destruct (decide (P d)) as [Hd|Hd]; simpl.
  - rewrite <- IH. f_equal.
    rewrite !list_filter_filter. apply list_filter_iff. tauto.
  - rewrite <- IH. rewrite list_filter_filter. apply list_filter_iff.
    intros d'. split; [tauto|]. intros Hd'. split; [done|].
    intros Heq. apply Hd. by apply (HP d').
Qed.

Lemma dedup_from docs_kept seen flat :
  fst (foldl dedup_step (docs_kept, seen) flat)
  = docs_kept ++ first_seen_by_url (filter (fun d => url d ∉ seen) flat).
Proof.
  revert docs_kept seen.
  induction flat as [|d flat IH]; intros kept seen; simpl.
  - by rewrite app_nil_r.
  - rewrite filter_cons. destruct (decide (url d ∈ seen)) as [Hin|Hout].
    + rewrite decide_False by tauto. apply IH.
    + rewrite decide_True by done. rewrite IH. simpl.
      rewrite <- app_assoc. simpl. do 2 f_equal.
      rewrite first_seen_filter by congruence.
      f_equal. rewrite list_filter_filter. apply list_filter_iff.
      intros d'. rewrite not_elem_of_union, not_elem_of_singleton. tauto.
Qed.

Lemma dedup_first_seen flat : dedup flat = first_seen_by_url flat.
Proof.
  unfold dedup. rewrite dedup_from. simpl. f_equal.
  induction flat as [|d flat IH]; [done|].
  rewrite filter_cons_True by set_solver. by rewrite IH.
Qed.

Lemma first_seen_urls docs u :
  u ∈ url <$> first_seen_by_url docs ↔ u ∈ url <$> docs.
Proof.
  induction docs as [|d docs IH]; [done|]. simpl.
  rewrite !elem_of_cons, <- IH, !list_elem_of_fmap.
  split.
  - intros [->|(d' & -> & Hd')]; [by left|].
    apply list_elem_of_filter in Hd' as [_ Hd']. right. eauto.
  - intros [->|(d' & -> & Hd')]; [by left|].
    destruct (decide (url d' = url d)) as [Heq|Hne]; [by left|].
    right. exists d'. split; [done|]. by apply list_elem_of_filter.
Qed.

Lemma first_seen_NoDup docs : NoDup (url <$> first_seen_by_url docs).
Proof.
  induction docs as [|d docs IH]; simpl; [constructor|].
  apply NoDup_cons. split.
  - rewrite list_elem_of_fmap. intros (d' & Heq & Hd').
    apply list_elem_of_filter in Hd' as [Hne _]. congruence.
  - eapply sublist_NoDup; [exact IH|].
    apply fmap_sublist. apply sublist_filter.
Qed.

(** For each url, the document kept is the first one of the flat list. *)
Lemma first_seen_head docs u :
  head (filter (fun d => url d = u) (first_seen_by_url docs))
  = head (filter (fun d => url d = u) docs).
Proof.
  induction docs as [|d docs IH]; [done|]. simpl.
  rewrite !filter_cons. destruct (decide (url d = u)) as [Heq|Hne]; [done|].
  rewrite <- IH. f_equal. rewrite list_filter_filter. apply list_filter_iff.
  intros d'. split; [tauto|]. intros Hd'. split; [done|]. congruence.
Qed.

Lemma first_seen_sublist docs : first_seen_by_url docs `sublist_of` docs.
Proof.
  induction docs as [|d docs IH]; simpl; [constructor|].
  apply sublist_skip. etrans; [apply sublist_filter|exact IH].
Qed.

(** C8.  Retrieval coordinator, for every search function and every list of
    queries: with no query there is no task (so no search is issued) and the
    result is empty; a search that raises counts as one that found nothing
    and the batch still returns its list; the urls of the result are pairwise
    distinct, each url keeps the first document the flat list has for it, and
    the result is the flat list with the later duplicates struck out, in the
    flat list's order. *)
Theorem run_concurrent_contract
    (search_func : nat -> string -> Outcome (list Document))
    (queries : list string) :
  let flat := flatten (gather search_func queries) in
  let result := run_concurrent search_func queries in
  (gather search_func [] = [] ∧ run_concurrent search_func [] = [])
  ∧ result = run_concurrent (silenced search_func) queries
  ∧ (∀ e rs1 rs2, gather search_func queries = rs1 ++ Raised e :: rs2 →
       result = dedup (flatten (rs1 ++ rs2)))
  ∧ NoDup (url <$> result)
  ∧ (∀ u, head (filter (fun d => url d = u) result)
          = head (filter (fun d => url d = u) flat))
  ∧ result = first_seen_by_url flat
  ∧ result `sublist_of` flat.
Proof.
  cbv zeta. unfold run_concurrent. rewrite !dedup_first_seen.
  repeat split.
  - by rewrite flatten_silenced.
  - intros e rs1 rs2 ->. by rewrite flatten_raised, dedup_first_seen.
  - apply first_seen_NoDup.
  - intros u. apply first_seen_head.
  - apply first_seen_sublist.
Qed.

End RetrievalCoordinator.

Lemma run_concurrent_contract_witness :
  WebSearchTool.run_concurrent Scenario.second_task_fails [ "q1"; "q2"; "q3" ]
  = WebSearchTool.dedup
      (WebSearchTool.flatten
         ([ Returned [ Scenario.docA; Scenario.docB; Scenario.docA' ] ]
          ++ [ Returned [ Scenario.docA; Scenario.docB; Scenario.docA' ] ]))
  ∧ WebSearchTool.run_concurrent Scenario.second_task_fails [ "q1"; "q2"; "q3" ]
    = [ Scenario.docA; Scenario.docB ]
  ∧ NoDup (url <$> WebSearchTool.run_concurrent Scenario.second_task_fails
                     [ "q1"; "q2"; "q3" ]).
Proof.
  destruct (run_concurrent_contract Scenario.second_task_fails
              [ "q1"; "q2"; "q3" ])
    as (_ & _ & Hraised & Hnodup & _ & Hfirst & _).
  split; [|split].
  - apply (Hraised (mkExc OtherException "timed out")). reflexivity.
  - rewrite Hfirst. reflexivity.
  - exact Hnodup.
Defined.

(** ** What each node returns *)

Section NodeEquations.

Variable env : Collaborators.

Implicit Types (state : GraphState) (log : list Event).

Lemma generate_queries_node_returned state log qs :
  generate_chain env log (question state) = Returned qs →
  generate_queries_node env state log
  = (Returned (set_queries qs), log ++ [ev_call (call_generate (question state))]).
Proof.
  intros H. unfold generate_queries_node, try_except, call, mbind, M_bind.
  by rewrite H.
Qed.

Lemma generate_queries_node_raised state log e :
  generate_chain env log (question state) = Raised e →
  generate_queries_node env state log
  = (Returned (dict_merge (set_queries [])
                 (log_error step_generate
                    match exc_class e with
                    | RateLimitError => RateLimit
                    | OtherException => LLMFailure
                    end (exc_str e))),
     log ++ [ev_call (call_generate (question state))]).
Proof.
  intros H. unfold generate_queries_node, try_except, call, mbind, M_bind.
  rewrite H. by destruct (exc_class e).
Qed.

Lemma web_search_node_returned state log docs :
  search_tool env log (queries state) = Returned docs →
  web_search_node env state log
  = (Returned (dict_merge (set_documents (documents state ++ docs))
                          (set_queries [])),
     log ++ [ev_call (call_search (queries state))]).
Proof.
  intros H. unfold web_search_node, try_except, call, mbind, M_bind.
  by rewrite H.
Qed.

Lemma web_search_node_raised state log e :
  search_tool env log (queries state) = Raised e →
  web_search_node env state log
  = (Returned (dict_merge (set_documents (documents state))
                 (log_error step_search
                    (if PyStr.contains "429" (exc_str e)
                        || PyStr.contains "Too Many Requests" (exc_str e)
                     then RateLimit else HTTPError) (exc_str e))),
     log ++ [ev_call (call_search (queries state))]).
Proof.
  intros H. unfold web_search_node, try_except, call, mbind, M_bind.
  rewrite H. by destruct (_ || _).
Qed.

Lemma reflect_node_returned state log r :
  reflect_chain env log (question state) (documents state) = Returned r →
  reflect_node env state log
  = (Returned {| upd_queries := Some (default [] (ro_new_queries r));
                 upd_documents := None;
                 upd_need_more := Some (ro_need_more r);
                 upd_final_answer := None; upd_citations := None;
                 upd_loop_count := Some (loop_count state + 1);
                 upd_errors := None |},
     log ++ [ev_call (call_reflect (question state) (documents state))]).
Proof.
  intros H. unfold reflect_node, call, mbind, M_bind. by rewrite H.
Qed.

Lemma reflect_node_raised state log e :
  reflect_chain env log (question state) (documents state) = Raised e →
  reflect_node env state log
  = (Raised e,
     log ++ [ev_call (call_reflect (question state) (documents state))]).
Proof.
  intros H. unfold reflect_node, call, mbind, M_bind. by rewrite H.
Qed.

Lemma synthesize_node_error state log :
  errors state ≠ [] →
  synthesize_node env state log = (Returned (set_answer error_answer []), log).
Proof.
  intros H. unfold synthesize_node.
  destruct (errors state); [done|]. reflexivity.
Qed.

Lemma synthesize_node_empty state log :
  errors state = [] → documents state = [] →
  synthesize_node env state log
  = (Returned (set_answer no_information_answer []), log).
Proof. intros He Hd. unfold synthesize_node. by rewrite He, Hd. Qed.

Lemma synthesize_node_returned state log r :
  errors state = [] → documents state ≠ [] →
  synthesize_chain env log (question state) (documents state) = Returned r →
  synthesize_node env state log
  = (Returned
       (set_answer
          (PyStr.strip (answer r
                        +:+ citation_string_at_end (documents state) (cited_ids r)))
          (final_citations_list (remap (documents state) (cited_ids r)))),
     log ++ [ev_call (call_synthesize (question state) (documents state))]).
Proof.
  intros He Hd H. unfold synthesize_node. rewrite He. simpl.
  destruct (documents state) eqn:E; [done|]. simpl.
  unfold call, mbind, M_bind. by rewrite H.
Qed.

Lemma synthesize_node_raised state log e :
  errors state = [] → documents state ≠ [] →
  synthesize_chain env log (question state) (documents state) = Raised e →
  synthesize_node env state log
  = (Raised e,
     log ++ [ev_call (call_synthesize (question state) (documents state))]).
Proof.
  intros He Hd H. unfold synthesize_node. rewrite He. simpl.
  destruct (documents state) eqn:E; [done|]. simpl.
  unfold call, mbind, M_bind. by rewrite H.
Qed.

End NodeEquations.

(** ** Evidence merge in the web-search node *)

Section EvidenceMerge.

Variable env : Collaborators.

Lemma NoDup_urls_app (existing new_docs : list Document) :
  NoDup (url <$> existing ++ new_docs)
  ↔ NoDup (url <$> existing)
    ∧ (∀ d, d ∈ new_docs → url d ∉ url <$> existing)
    ∧ NoDup (url <$> new_docs).
Proof.
  rewrite fmap_app, NoDup_app. split.
  - intros (He & Hdisj & Hn). repeat split; [done| |done].
    intros d Hd Hin. apply (Hdisj _ Hin). by apply list_elem_of_fmap_2.
  - intros (He & Hdisj & Hn). repeat split; [done| |done].
    intros u Hin Hnew. apply list_elem_of_fmap in Hnew as (d & -> & Hd).
    by apply (Hdisj d).
Qed.

(** C3, as the code has it.  When the search tool returns [docs], the node
    stores [documents state ++ docs]: the held documents first and in their
    order, then every new document in its order, none discarded; so the urls
    of the result are pairwise distinct exactly when those of the held
    documents are, those of the new ones are, and no new url is already
    held. *)
Theorem web_search_merge (state : GraphState) (log : list Event)
    (docs : list Document) :
  search_tool env log (queries state) = Returned docs →
  ∃ u, fst (web_search_node env state log) = Returned u
       ∧ documents (apply_update state u) = documents state ++ docs
       ∧ (NoDup (url <$> documents (apply_update state u))
          ↔ NoDup (url <$> documents state)
            ∧ (∀ d, d ∈ docs → url d ∉ url <$> documents state)
            ∧ NoDup (url <$> docs)).
Proof.
  intros H. rewrite (web_search_node_returned _ _ _ _ H).
  eexists. split; [reflexivity|]. simpl. split; [done|].
  apply NoDup_urls_app.
Qed.

(** C10.  When the search batch raises, the dict the node returns carries
    [documents] with the state's own list and has no [queries] key; after the
    merge both fields are what they were. *)
Theorem web_search_error_frame (state : GraphState) (log : list Event)
    (e : Exc) :
  search_tool env log (queries state) = Raised e →
  ∃ u, web_search_node env state log
       = (Returned u, log ++ [ev_call (call_search (queries state))])
       ∧ upd_documents u = Some (documents state)
       ∧ upd_queries u = None
       ∧ documents (apply_update state u) = documents state
       ∧ queries (apply_update state u) = queries state.
Proof.
  intros H. rewrite (web_search_node_raised _ _ _ _ H).
  eexists. split; [reflexivity|]. by repeat split.
Qed.

End EvidenceMerge.

Lemma web_search_merge_witness :
  ∃ u, fst (web_search_node Scenario.eager Scenario.holding_docA []) = Returned u
       ∧ documents (apply_update Scenario.holding_docA u)
         = [ Scenario.docA ] ++ [ Scenario.docA ]
       ∧ (NoDup (url <$> documents (apply_update Scenario.holding_docA u))
          ↔ NoDup (url <$> [ Scenario.docA ])
            ∧ (∀ d, d ∈ [ Scenario.docA ]
                    → url d ∉ url <$> [ Scenario.docA ])
            ∧ NoDup (url <$> [ Scenario.docA ])).
Proof.
  apply (web_search_merge Scenario.eager Scenario.holding_docA []
           [ Scenario.docA ]).
  reflexivity.
Defined.

(** C3 as the spec words it fails: the second round brings a document whose
    url is already held; it is kept, and the evidence has the url twice. *)
Lemma web_search_keeps_held_url :
  ∃ u, fst (web_search_node Scenario.second_round Scenario.holding_docA [])
       = Returned u
       ∧ NoDup (url <$> documents Scenario.holding_docA)
       ∧ documents (apply_update Scenario.holding_docA u)
         = [ Scenario.docA; Scenario.docA' ]
       ∧ url Scenario.docA' ∈ url <$> documents Scenario.holding_docA
       ∧ ¬ NoDup (url <$> documents (apply_update Scenario.holding_docA u)).
Proof.
  eexists. split; [reflexivity|]. simpl.
  split; [apply NoDup_singleton|]. split; [reflexivity|].
  split; [apply list_elem_of_here|].
  intros Hnd. apply NoDup_cons in Hnd as [Hnotin _].
  apply Hnotin. apply list_elem_of_here.
Qed.

Lemma web_search_error_frame_witness :
  ∃ u, web_search_node Scenario.rate_limited Scenario.holding_docA []
       = (Returned u, [] ++ [ev_call (call_search (queries Scenario.holding_docA))])
       ∧ upd_documents u = Some (documents Scenario.holding_docA)
       ∧ upd_queries u = None
       ∧ documents (apply_update Scenario.holding_docA u)
         = documents Scenario.holding_docA
       ∧ queries (apply_update Scenario.holding_docA u)
         = queries Scenario.holding_docA.
Proof.
  apply (web_search_error_frame Scenario.rate_limited Scenario.holding_docA []
           Scenario.http_429).
  reflexivity.
Defined.

(** ** Synthesis: the two fixed answers *)

Section FixedAnswers.

Variable env : Collaborators.

(** C7, as the code has it.  With no document at synthesis time the node
    makes no call and returns no citation; the text is "No information
    found." when no error is recorded, and the error text when one is. *)
Theorem synthesize_empty_evidence (state : GraphState) (log : list Event) :
  documents state = [] →
  synthesize_node env state log
  = (Returned (set_answer (if truthy (errors state) then error_answer
                           else no_information_answer) []),
     log)
  ∧ (errors state = [] →
     ∃ u, synthesize_node env state log = (Returned u, log)
          ∧ final_answer (apply_update state u) = no_information_answer
          ∧ citations (apply_update state u) = []).
Proof.
  intros Hd. split.
  - destruct (errors state) eqn:He.
    + by apply synthesize_node_empty.
    + apply synthesize_node_error. by rewrite He.
  - intros He. rewrite synthesize_node_empty by done. by eexists.
Qed.

End FixedAnswers.

Lemma synthesize_empty_evidence_witness :
  synthesize_node Scenario.eager (initial_state "Q" 2) []
  = (Returned (set_answer no_information_answer []), [])
  ∧ ∃ u, synthesize_node Scenario.eager (initial_state "Q" 2) [] = (Returned u, [])
         ∧ final_answer (apply_update (initial_state "Q" 2) u)
           = no_information_answer
         ∧ citations (apply_update (initial_state "Q" 2) u) = [].
Proof.
  destruct (synthesize_empty_evidence Scenario.eager (initial_state "Q" 2) []
              eq_refl) as [Hnode Hclean].
  split; [exact Hnode|exact (Hclean eq_refl)].
Defined.

(** C7 as the spec words it fails: no document and one recorded error give
    the error text, not "No information found.". *)
Lemma synthesize_empty_evidence_with_error :
  documents Scenario.failed_search = []
  ∧ ∃ u, fst (synthesize_node Scenario.eager Scenario.failed_search [])
         = Returned u
         ∧ final_answer (apply_update Scenario.failed_search u) = error_answer
         ∧ final_answer (apply_update Scenario.failed_search u)
           ≠ no_information_answer.
Proof.
  split; [reflexivity|]. eexists. split; [reflexivity|].
  split; [reflexivity|]. discriminate.
Qed.

(** ** Citation remapper *)

Section CitationRemapper.

Implicit Types (docs : list Document) (cited : list Z) (r : Remap).

Lemma append_assoc (s1 s2 s3 : string) : (s1 +:+ s2) +:+ s3 = s1 +:+ s2 +:+ s3.
Proof.
  induction s1 as [|c s1 IH]; [done|].
  change (String c ((s1 +:+ s2) +:+ s3) = String c (s1 +:+ s2 +:+ s3)).
  by rewrite IH.
Qed.

Lemma join_empty_app (ps1 ps2 : list string) :
  PyStr.join_empty (ps1 ++ ps2) = PyStr.join_empty ps1 +:+ PyStr.join_empty ps2.
Proof.
  induction ps1 as [|p ps1 IH]; [done|].
  change (PyStr.join_empty ((p :: ps1) ++ ps2))
    with (p +:+ PyStr.join_empty (ps1 ++ ps2)).
  change (PyStr.join_empty (p :: ps1)) with (p +:+ PyStr.join_empty ps1).
  by rewrite IH, append_assoc.
Qed.

Lemma markers_app (m : gmap Z Z) (ids1 ids2 : list Z) :
  markers m (ids1 ++ ids2) = markers m ids1 +:+ markers m ids2.
Proof. unfold markers. by rewrite fmap_app, join_empty_app. Qed.

Lemma markers_cons (m : gmap Z Z) (i : Z) (ids : list Z) :
  markers m (i :: ids) = marker m i +:+ markers m ids.
Proof. reflexivity. Qed.

(** The original numbering: key [i] holds the [i]-th document, counted from
    one, and there is no other key. *)
Lemma original_citations_map_snoc docs d :
  original_citations_map (docs ++ [d])
  = <[ Z.of_nat (length docs) + 1 := d ]> (original_citations_map docs).
Proof.
  unfold original_citations_map.
  rewrite imap_app, foldl_app. simpl.
  by rewrite Nat.add_0_r.
Qed.

Lemma original_citations_map_lookup docs (i : Z) :
  original_citations_map docs !! i
  = if decide (1 ≤ i ≤ Z.of_nat (length docs))
    then docs !! Z.to_nat (i - 1) else None.
Proof.
  induction docs as [|d docs IH] using rev_ind.
  - unfold original_citations_map; simpl. rewrite lookup_empty.
    case_decide; [simpl in *; lia|done].
  - rewrite original_citations_map_snoc, length_app. simpl.
    destruct (decide (Z.of_nat (length docs) + 1 = i)) as [<-|Hne].
    + rewrite lookup_insert_eq, decide_True by lia.
      replace (Z.to_nat (Z.of_nat (length docs) + 1 - 1)) with (length docs) by lia.
      by rewrite list_lookup_middle.
    + rewrite lookup_insert_ne, IH by done.
      repeat case_decide; try lia; try done.
      rewrite lookup_app_l by lia. done.
Qed.

Lemma original_citations_map_unresolved docs (i : Z) :
  ¬ (1 ≤ i ≤ Z.of_nat (length docs)) → original_citations_map docs !! i = None.
Proof. intros H. rewrite original_citations_map_lookup. by rewrite decide_False. Qed.

(** The ids that do not resolve are exactly those outside [1..N]. *)
Lemma original_citations_map_None docs (i : Z) :
  original_citations_map docs !! i = None
  ↔ ¬ (1 ≤ i ≤ Z.of_nat (length docs)).
Proof.
  rewrite original_citations_map_lookup. case_decide as Hi.
  - split; [|done]. intros Hnone. apply lookup_ge_None in Hnone. lia.
  - done.
Qed.

Lemma remap_step_unresolved (ocm : gmap Z Document) r (i : Z) :
  ocm !! i = None → remap_step ocm r i = r.
Proof. intros H. unfold remap_step. by rewrite H. Qed.

Lemma remap_step_seen (ocm : gmap Z Document) r (i : Z) doc :
  ocm !! i = Some doc → url doc ∈ seen_urls r → remap_step ocm r i = r.
Proof. intros H Hin. unfold remap_step. rewrite H. by rewrite decide_True. Qed.

Lemma remap_step_new (ocm : gmap Z Document) r (i : Z) doc :
  ocm !! i = Some doc → url doc ∉ seen_urls r →
  remap_step ocm r i
  = {| final_citations_list :=
         final_citations_list r
         ++ [ mkCitation (Z.of_nat (length (final_citations_list r)) + 1)
                (url doc) (title doc) ];
       seen_urls := seen_urls r ∪ {[ url doc ]};
       original_to_new_id_map :=
         <[ i := Z.of_nat (length (final_citations_list r)) + 1 ]>
           (original_to_new_id_map r) |}.
Proof. intros H Hout. unfold remap_step. rewrite H. by rewrite decide_False. Qed.

(** An id that does not resolve never becomes a key of the new-id mapping. *)
Lemma remap_map_unresolved (ocm : gmap Z Document) r cited (i : Z) :
  ocm !! i = None →
  original_to_new_id_map (foldl (remap_step ocm) r cited) !! i
  = original_to_new_id_map r !! i.
Proof.
  intros H. revert r. induction cited as [|j cited IH]; intros r; [done|].
  simpl. rewrite IH. unfold remap_step.
  destruct (ocm !! j) as [doc|] eqn:Hj; [|done].
  case_decide; [done|]. simpl.
  apply lookup_insert_ne. congruence.
Qed.

(** C1, as the code has it.  An id outside [1..N] adds no citation and
    changes nothing in the three containers of the loop, so the other ids
    keep their numbers; in the marker string it is rendered as it came, as
    [[id]], at its place between the markers of the other ids. *)
Theorem unresolved_id_rendered_literally docs (l1 l2 : list Z) (i : Z) :
  ¬ (1 ≤ i ≤ Z.of_nat (length docs)) →
  remap docs (l1 ++ i :: l2) = remap docs (l1 ++ l2)
  ∧ final_citations_list (remap docs (l1 ++ i :: l2))
    = final_citations_list (remap docs (l1 ++ l2))
  ∧ citation_string_at_end docs (l1 ++ i :: l2)
    = markers (original_to_new_id_map (remap docs (l1 ++ l2))) l1
      +:+ ("[" +:+ PyStr.of_int i +:+ "]")
      +:+ markers (original_to_new_id_map (remap docs (l1 ++ l2))) l2.
Proof.
  intros Hi. apply original_citations_map_unresolved in Hi.
  assert (remap docs (l1 ++ i :: l2) = remap docs (l1 ++ l2)) as Heq.
  { unfold remap. rewrite !foldl_app. simpl.
    by rewrite remap_step_unresolved. }
  split; [done|]. split; [by rewrite Heq|].
  unfold citation_string_at_end. rewrite Heq.
  replace (truthy (l1 ++ i :: l2)) with true by (by destruct l1).
  rewrite markers_app, markers_cons. do 2 f_equal.
  unfold marker, remap. rewrite remap_map_unresolved by done.
  simpl. by rewrite lookup_empty.
Qed.

(** C6.  Two documents with different urls, cited as [2; 1; 2]: document 2
    is emitted first and gets id 1, document 1 gets id 2, the repeated 2 adds
    nothing to the list; the markers follow the cited ids, [[1][2][1]]. *)
Theorem citation_determinism (url1 url2 tA cA tB cB : string) :
  url1 ≠ url2 →
  let A := mkDocument url1 tA cA in
  let B := mkDocument url2 tB cB in
  final_citations_list (remap [A; B] [2; 1; 2])
  = [ mkCitation 1 url2 tB; mkCitation 2 url1 tA ]
  ∧ citation_string_at_end [A; B] [2; 1; 2] = "[1][2][1]"
  ∧ ∀ env state log text,
      errors state = [] → documents state = [A; B] →
      synthesize_chain env log (question state) [A; B]
      = Returned (mkSynthesizeOutput text [2; 1; 2]) →
      fst (synthesize_node env state log)
      = Returned (set_answer (PyStr.strip (text +:+ "[1][2][1]"))
                    [ mkCitation 1 url2 tB; mkCitation 2 url1 tA ]).
Proof.
  intros Hne A B.
  assert (remap [A; B] [2; 1; 2]
          = {| final_citations_list :=
                 [ mkCitation 1 url2 tB; mkCitation 2 url1 tA ];
               seen_urls := ∅ ∪ {[ url2 ]} ∪ {[ url1 ]};
               original_to_new_id_map := <[ 1 := 2 ]> (<[ 2 := 1 ]> ∅) |})
    as Hremap.
  { unfold remap. simpl.
    rewrite (remap_step_new _ remap_init 2 B);
      [|by rewrite original_citations_map_lookup|apply not_elem_of_empty].
    simpl.
    rewrite (remap_step_new _ _ 1 A);
      [|by rewrite original_citations_map_lookup|].
    2:{ simpl. rewrite not_elem_of_union, not_elem_of_singleton.
        split; [apply not_elem_of_empty|done]. }
    simpl.
    rewrite (remap_step_seen _ _ 2 B);
      [|by rewrite original_citations_map_lookup|].
    2:{ simpl. rewrite !elem_of_union, !elem_of_singleton. tauto. }
    reflexivity. }
  assert (citation_string_at_end [A; B] [2; 1; 2] = "[1][2][1]") as Hstr.
  { unfold citation_string_at_end. rewrite Hremap. simpl.
    unfold markers, marker. simpl.
    rewrite lookup_insert_ne, !lookup_insert_eq by done. reflexivity. }
  split; [by rewrite Hremap|]. split; [done|].
  intros env state log text He Hd Hc.
  rewrite (synthesize_node_returned env state log
             (mkSynthesizeOutput text [2; 1; 2]));
    [|done|by rewrite Hd|by rewrite Hd].
  simpl. by rewrite Hd, Hremap, Hstr.
Qed.

End CitationRemapper.

Lemma unresolved_id_rendered_literally_witness :
  remap [Scenario.docA; Scenario.docB] ([2] ++ 99 :: [1])
  = remap [Scenario.docA; Scenario.docB] ([2] ++ [1])
  ∧ final_citations_list (remap [Scenario.docA; Scenario.docB] ([2] ++ 99 :: [1]))
    = final_citations_list (remap [Scenario.docA; Scenario.docB] ([2] ++ [1]))
  ∧ citation_string_at_end [Scenario.docA; Scenario.docB] ([2] ++ 99 :: [1])
    = markers (original_to_new_id_map
                 (remap [Scenario.docA; Scenario.docB] ([2] ++ [1]))) [2]
      +:+ ("[" +:+ PyStr.of_int 99 +:+ "]")
      +:+ markers (original_to_new_id_map
                     (remap [Scenario.docA; Scenario.docB] ([2] ++ [1]))) [1].
Proof.
  apply (unresolved_id_rendered_literally
           [Scenario.docA; Scenario.docB] [2] [1] 99).
  simpl. lia.
Defined.

(** C1 as the spec words it fails: with two documents and [cited_ids = [99]]
    no citation is listed, but the marker string is "[99]", not the empty
    string it is when nothing is cited. *)
Lemma unresolved_id_not_dropped_from_markers :
  original_citations_map [Scenario.docA; Scenario.docB] !! 99 = None
  ∧ final_citations_list (remap [Scenario.docA; Scenario.docB] [99]) = []
  ∧ citation_string_at_end [Scenario.docA; Scenario.docB] [99] = "[99]"
  ∧ citation_string_at_end [Scenario.docA; Scenario.docB] [99]
    ≠ citation_string_at_end [Scenario.docA; Scenario.docB] [].
Proof. vm_compute. repeat split; discriminate. Qed.

Lemma citation_determinism_witness :
  final_citations_list (remap [Scenario.docA; Scenario.docB] [2; 1; 2])
  = [ mkCitation 1 "url2" "B"; mkCitation 2 "url1" "A" ]
  ∧ citation_string_at_end [Scenario.docA; Scenario.docB] [2; 1; 2] = "[1][2][1]"
  ∧ fst (synthesize_node Scenario.cites_212 Scenario.holding_two [])
    = Returned (set_answer "Paris is the capital. [1][2][1]"
                  [ mkCitation 1 "url2" "B"; mkCitation 2 "url1" "A" ]).
Proof.
  assert ("url1" ≠ "url2") as Hne by discriminate.
  destruct (citation_determinism "url1" "url2" "A" "a" "B" "b" Hne)
    as (Hl & Hs & Hnode).
  split; [exact Hl|]. split; [exact Hs|].
  exact (Hnode Scenario.cites_212 Scenario.holding_two []
           "Paris is the capital. " eq_refl eq_refl eq_refl).
Defined.

(** ** The graph *)

Section GraphRuns.

Variable env : Collaborators.

Implicit Types (state s : GraphState) (log out : list Event) (n : Node).

Lemma run_S fuel n s log :
  run env (S fuel) n s log
  = match node_function env n s log with
    | (Returned u, log1) =>
        let s' := apply_update s u in
        match next_node n s' with
        | None => (Returned (Some s'), log1 ++ [ev_step n s'])
        | Some n' => run env fuel n' s' (log1 ++ [ev_step n s'])
        end
    | (Raised e, log1) => (Raised e, log1)
    end.
Proof.
  simpl. unfold mbind, M_bind at 1.
  destruct (node_function env n s log) as [[u|e] log1]; [|done].
  unfold M_bind, emit. simpl.
  by destruct (next_node n (apply_update s u)).
Qed.

(** A node adds to the log at most the one call it makes. *)
Lemma node_function_log n s log :
  ∃ calls, snd (node_function env n s log) = log ++ calls
           ∧ Forall (fun ev => is_call ev = true) calls
           ∧ search_calls calls = match n with web_search => 1 | _ => 0 end%nat.
Proof.
  destruct n; simpl.
  - destruct (generate_chain env log (question s)) as [qs|e] eqn:H.
    + rewrite (generate_queries_node_returned _ _ _ _ H). simpl.
      eexists. split; [done|]. split; [|done]. by repeat constructor.
    + rewrite (generate_queries_node_raised _ _ _ _ H). simpl.
      eexists. split; [done|]. split; [|done]. by repeat constructor.
  - destruct (search_tool env log (queries s)) as [docs|e] eqn:H.
    + rewrite (web_search_node_returned _ _ _ _ H). simpl.
      eexists. split; [done|]. split; [|done]. by repeat constructor.
    + rewrite (web_search_node_raised _ _ _ _ H). simpl.
      eexists. split; [done|]. split; [|done]. by repeat constructor.
  - destruct (reflect_chain env log (question s) (documents s)) as [r|e] eqn:H.
    + rewrite (reflect_node_returned _ _ _ _ H). simpl.
      eexists. split; [done|]. split; [|done]. by repeat constructor.
    + rewrite (reflect_node_raised _ _ _ _ H). simpl.
      eexists. split; [done|]. split; [|done]. by repeat constructor.
  - destruct (decide (errors s = [])) as [He|He].
    + destruct (decide (documents s = [])) as [Hd|Hd].
      * rewrite synthesize_node_empty by done. simpl.
        exists []. by rewrite app_nil_r.
      * destruct (synthesize_chain env log (question s) (documents s))
          as [r|e] eqn:H.
        -- rewrite (synthesize_node_returned _ _ _ _ He Hd H). simpl.
           eexists. split; [done|]. split; [|done]. by repeat constructor.
        -- rewrite (synthesize_node_raised _ _ _ _ He Hd H). simpl.
           eexists. split; [done|]. split; [|done]. by repeat constructor.
    + rewrite synthesize_node_error by done. simpl.
      exists []. by rewrite app_nil_r.
Qed.

(** No node touches [max_iter]; only [reflect] moves [loop_count], by one. *)
Lemma node_function_budget n s log u :
  fst (node_function env n s log) = Returned u →
  max_iter (apply_update s u) = max_iter s
  ∧ loop_count (apply_update s u)
    = match n with reflect => loop_count s + 1 | _ => loop_count s end.
Proof.
  destruct n; simpl.
  - destruct (generate_chain env log (question s)) as [qs|e] eqn:H.
    + rewrite (generate_queries_node_returned _ _ _ _ H). by intros [= <-].
    + rewrite (generate_queries_node_raised _ _ _ _ H). by intros [= <-].
  - destruct (search_tool env log (queries s)) as [docs|e] eqn:H.
    + rewrite (web_search_node_returned _ _ _ _ H). by intros [= <-].
    + rewrite (web_search_node_raised _ _ _ _ H). by intros [= <-].
  - destruct (reflect_chain env log (question s) (documents s)) as [r|e] eqn:H.
    + rewrite (reflect_node_returned _ _ _ _ H). by intros [= <-].
    + rewrite (reflect_node_raised _ _ _ _ H). done.
  - destruct (decide (errors s = [])) as [He|He].
    + destruct (decide (documents s = [])) as [Hd|Hd].
      * rewrite synthesize_node_empty by done. by intros [= <-].
      * destruct (synthesize_chain env log (question s) (documents s))
          as [r|e] eqn:H.
        -- rewrite (synthesize_node_returned _ _ _ _ He Hd H). by intros [= <-].
        -- rewrite (synthesize_node_raised _ _ _ _ He Hd H). done.
    + rewrite synthesize_node_error by done. by intros [= <-].
Qed.

Lemma search_calls_app log1 log2 :
  search_calls (log1 ++ log2) = (search_calls log1 + search_calls log2)%nat.
Proof. unfold search_calls. by rewrite filter_app, length_app. Qed.

Lemma web_search_steps_app log1 log2 :
  web_search_steps (log1 ++ log2)
  = (web_search_steps log1 + web_search_steps log2)%nat.
Proof. unfold web_search_steps. by rewrite filter_app, length_app. Qed.

Lemma web_search_steps_calls calls :
  Forall (fun ev => is_call ev = true) calls → web_search_steps calls = 0%nat.
Proof.
  unfold web_search_steps. induction 1 as [|ev calls Hev _ IH]; [done|].
  rewrite filter_cons_False; [done|]. by destruct ev.
Qed.

Lemma web_search_steps_step n s :
  web_search_steps [ev_step n s] = match n with web_search => 1 | _ => 0 end%nat.
Proof. by destruct n. Qed.

Lemma search_calls_step n s : search_calls [ev_step n s] = 0%nat.
Proof. done. Qed.

Lemma next_node_rounds n n' s u log :
  fst (node_function env n s log) = Returned u →
  next_node n (apply_update s u) = Some n' →
  (match n with web_search => 1 | _ => 0 end
   + rounds_left n' (apply_update s u) ≤ rounds_left n s)%nat.
Proof.
  intros Hu Hnext.
  destruct (node_function_budget _ _ _ _ Hu) as [Hmax Hlc].
  unfold rounds_left. rewrite Hmax, Hlc. clear Hu.
  destruct n; cbv iota in Hlc; cbn [next_node] in Hnext; simpl.
  - clear Hmax Hlc.
    destruct (should_continue_after_generate _); simplify_eq; simpl; lia.
  - clear Hmax Hlc.
    destruct (should_continue_after_search _); simplify_eq; simpl; lia.
  - unfold should_continue_after_reflect in Hnext. rewrite Hmax, Hlc in Hnext.
    clear Hmax Hlc.
    destruct (state_has_error (apply_update s u));
      [simplify_eq; simpl; lia|].
    destruct (need_more (apply_update s u)); simpl in Hnext;
      [|simplify_eq; simpl; lia].
    destruct (Z.ltb_spec (loop_count s + 1) (max_iter s));
      simplify_eq; simpl; lia.
  - done.
Qed.

(** What a run adds to the log: as many search calls as web-search steps,
    and no more than the rounds that were left. *)
Lemma run_rounds fuel n s log :
  ∃ out, snd (run env fuel n s log) = log ++ out
         ∧ web_search_steps out = search_calls out
         ∧ (search_calls out ≤ rounds_left n s)%nat.
Proof.
  revert n s log. induction fuel as [|fuel IH]; intros n s log.
  - exists []. simpl. rewrite app_nil_r.
    split; [done|]. split; [done|]. unfold search_calls; simpl; lia.
  - rewrite run_S.
    destruct (node_function_log n s log) as (calls & Hlog & Hcalls & Hcount).
    destruct (node_function env n s log) as [[u|e] log1] eqn:Hnode;
      simpl in Hlog; subst log1.
    + pose proof (web_search_steps_calls _ Hcalls) as Hws.
      cbv zeta.
      destruct (next_node n (apply_update s u)) as [n'|] eqn:Hnext.
      * destruct (IH n' (apply_update s u)
                    ((log ++ calls) ++ [ev_step n (apply_update s u)]))
          as (out & -> & Hsteps & Hle).
        exists (calls ++ ev_step n (apply_update s u) :: out).
        split; [by rewrite <- !app_assoc|].
        assert (fst (node_function env n s log) = Returned u) as Hu
            by (by rewrite Hnode).
        pose proof (next_node_rounds _ _ _ _ _ Hu Hnext) as Hr.
        rewrite (web_search_steps_app calls), (search_calls_app calls).
        change (ev_step n (apply_update s u) :: out)
          with ([ev_step n (apply_update s u)] ++ out).
        rewrite web_search_steps_app, search_calls_app, Hsteps, Hws, Hcount.
        rewrite web_search_steps_step, search_calls_step.
        clear -Hr Hle. destruct n; cbv iota in *; split; lia.
      * destruct n; simpl in Hnext;
          try (by destruct (should_continue_after_generate _));
          try (by destruct (should_continue_after_search _));
          try (by destruct (should_continue_after_reflect _)).
        exists (calls ++ [ev_step synthesize (apply_update s u)]).
        simpl. split; [by rewrite <- app_assoc|].
        rewrite web_search_steps_app, search_calls_app, Hws, Hcount.
        rewrite web_search_steps_step, search_calls_step.
        split; [done|]. simpl. lia.
    + exists calls. simpl. split; [done|].
      (* a node that raised: only [reflect] and [synthesize] can *)
      rewrite (web_search_steps_calls _ Hcalls), Hcount.
      destruct n; simpl; try (split; [done|lia]).
      exfalso. simpl in Hnode.
      destruct (search_tool env log (queries s)) as [docs|e'] eqn:H.
      * by rewrite (web_search_node_returned _ _ _ _ H) in Hnode.
      * by rewrite (web_search_node_raised _ _ _ _ H) in Hnode.
Qed.

End GraphRuns.

(** ** Loop bound *)

Section LoopBound.

Variable env : Collaborators.

(** C4, as the code has it.  From a state with [loop_count = 0] the search
    tool is invoked as often as the web-search node runs, and at most
    [max 1 max_iter] times, whatever the collaborators answer: at most
    [max_iter] times when [max_iter >= 1], and at most once otherwise, the
    first round being reached without the loop-back test. *)
Theorem loop_bound (fuel : nat) (s0 : GraphState) :
  loop_count s0 = 0 →
  let log := snd (invoke env fuel s0) in
  Z.of_nat (search_calls log) ≤ Z.max 1 (max_iter s0)
  ∧ web_search_steps log = search_calls log
  ∧ (1 ≤ max_iter s0 → Z.of_nat (web_search_steps log) ≤ max_iter s0).
Proof.
  intros Hlc log.
  destruct (run_rounds env fuel generate_queries s0 []) as (out & Hout & Hsteps & Hle).
  assert (log = out) as -> by (subst log; exact Hout).
  unfold rounds_left in Hle. rewrite Hlc in Hle.
  split; [lia|]. split; [done|]. rewrite Hsteps. lia.
Qed.

End LoopBound.

Lemma loop_bound_witness :
  Z.of_nat (search_calls (snd (invoke Scenario.eager 10 (initial_state "Q" 2))))
  ≤ Z.max 1 2
  ∧ web_search_steps (snd (invoke Scenario.eager 10 (initial_state "Q" 2)))
    = search_calls (snd (invoke Scenario.eager 10 (initial_state "Q" 2)))
  ∧ Z.of_nat (web_search_steps (snd (invoke Scenario.eager 10 (initial_state "Q" 2))))
    ≤ 2.
Proof.
  destruct (loop_bound Scenario.eager 10 (initial_state "Q" 2) eq_refl)
    as (Hcalls & Hsteps & Hbound).
  split; [exact Hcalls|]. split; [exact Hsteps|].
  apply Hbound. simpl. lia.
Defined.

(** C4 as the spec words it fails for [max_iter = 0]: the run of [main.py]'s
    initial state still searches once. *)
Lemma loop_bound_fails_for_zero :
  let s0 := initial_state "Q" 0 in
  let log := snd (invoke Scenario.eager 10 s0) in
  max_iter s0 = 0
  ∧ web_search_steps log = 1%nat
  ∧ search_calls log = 1%nat
  ∧ ¬ (Z.of_nat (web_search_steps log) ≤ max_iter s0).
Proof. vm_compute. repeat split; try done. Qed.

(** ** Termination *)

Section Termination.

Variable env : Collaborators.

Lemma next_node_nodes n n' (s : GraphState) u log :
  fst (node_function env n s log) = Returned u →
  next_node n (apply_update s u) = Some n' →
  (S (nodes_left n' (apply_update s u)) ≤ nodes_left n s)%nat.
Proof.
  intros Hu Hnext.
  destruct (node_function_budget _ _ _ _ _ Hu) as [Hmax Hlc].
  unfold nodes_left. rewrite Hmax, Hlc. clear Hu.
  destruct n; cbv iota in Hlc; cbn [next_node] in Hnext; simpl.
  - clear Hmax Hlc.
    destruct (should_continue_after_generate _); simplify_eq; simpl; lia.
  - clear Hmax Hlc.
    destruct (should_continue_after_search _); simplify_eq; simpl; lia.
  - unfold should_continue_after_reflect in Hnext. rewrite Hmax, Hlc in Hnext.
    clear Hmax Hlc.
    destruct (state_has_error (apply_update s u));
      [simplify_eq; simpl; lia|].
    destruct (need_more (apply_update s u)); simpl in Hnext;
      [|simplify_eq; simpl; lia].
    destruct (Z.ltb_spec (loop_count s + 1) (max_iter s));
      simplify_eq; simpl; lia.
  - done.
Qed.

(** With [nodes_left] units of fuel the graph reaches [END] or raises. *)
Lemma run_total fuel n (s : GraphState) log :
  (nodes_left n s ≤ fuel)%nat → fst (run env fuel n s log) ≠ Returned None.
Proof.
  revert n s log. induction fuel as [|fuel IH]; intros n s log Hfuel.
  - destruct n; simpl in Hfuel; lia.
  - rewrite run_S.
    destruct (node_function env n s log) as [[u|e] log1] eqn:Hnode; [|done].
    cbv zeta.
    destruct (next_node n (apply_update s u)) as [n'|] eqn:Hnext; [|done].
    apply IH.
    assert (fst (node_function env n s log) = Returned u) as Hu
        by (by rewrite Hnode).
    pose proof (next_node_nodes _ _ _ _ _ Hu Hnext). lia.
Qed.

End Termination.

(** ** Error short-circuit *)

Section ShortCircuit.

Variable env : Collaborators.

Implicit Types (s t : GraphState) (log out pre post : list Event) (n m : Node).

Lemma split_after_calls calls (x : Event) rest pre m t post :
  Forall (fun ev => is_call ev = true) calls →
  calls ++ x :: rest = pre ++ ev_step m t :: post →
  (pre = calls ∧ x = ev_step m t ∧ post = rest)
  ∨ (∃ pre', pre = calls ++ x :: pre' ∧ rest = pre' ++ ev_step m t :: post).
Proof.
  intros Hcalls. revert pre.
  induction Hcalls as [|c calls Hc _ IH]; intros pre Heq.
  - destruct pre as [|y pre]; simpl in *; simplify_eq.
    + by left.
    + right. by exists pre.
  - destruct pre as [|y pre]; simpl in Heq.
    { injection Heq as -> _. done. }
    injection Heq as <- Heq.
    destruct (IH _ Heq) as [(-> & -> & ->)|(pre' & -> & ->)].
    + by left.
    + right. by exists pre'.
Qed.

Lemma no_step_in_calls calls pre m t post :
  Forall (fun ev => is_call ev = true) calls →
  calls ≠ pre ++ ev_step m t :: post.
Proof.
  intros Hcalls ->. apply Forall_app in Hcalls as [_ Hcalls].
  by apply Forall_cons in Hcalls as [? _].
Qed.

Lemma next_node_after_error n s :
  n ≠ synthesize → errors s ≠ [] → next_node n s = Some synthesize.
Proof.
  intros Hn He.
  assert (state_has_error s = true) as Herr.
  { unfold state_has_error. by destruct (errors s). }
  destruct n; simpl; [| | |done].
  - unfold should_continue_after_generate. by rewrite Herr.
  - unfold should_continue_after_search. by rewrite Herr.
  - unfold should_continue_after_reflect. by rewrite Herr.
Qed.

Lemma run_synthesize_after_error fuel s log :
  errors s ≠ [] →
  run env (S fuel) synthesize s log
  = (Returned (Some (apologised s)), log ++ [ev_step synthesize (apologised s)]).
Proof.
  intros He. rewrite run_S. simpl. by rewrite synthesize_node_error.
Qed.

Lemma run_short_circuits fuel n s log :
  ∃ out, snd (run env fuel n s log) = log ++ out
         ∧ short_circuits (fst (run env fuel n s log)) out.
Proof.
  revert n s log. induction fuel as [|fuel IH]; intros n s log.
  - exists []. simpl. rewrite app_nil_r. split; [done|].
    intros pre m t post Heq. by destruct pre.
  - rewrite run_S.
    destruct (node_function_log env n s log) as (calls & Hlog & Hcalls & _).
    destruct (node_function env n s log) as [[u|e] log1] eqn:Hnode;
      simpl in Hlog; subst log1.
    + cbv zeta.
      destruct (next_node n (apply_update s u)) as [n'|] eqn:Hnext.
      * destruct (IH n' (apply_update s u)
                    ((log ++ calls) ++ [ev_step n (apply_update s u)]))
          as (out & Hout & Hok).
        exists (calls ++ ev_step n (apply_update s u) :: out).
        split; [by rewrite Hout, <- !app_assoc|].
        intros pre m t post Heq Hm Ht.
        apply split_after_calls in Heq
            as [(-> & [= <- <-] & ->)|(pre' & -> & ->)]; [| |done].
        -- (* the node that just ran left the error *)
           rewrite next_node_after_error in Hnext by done. simplify_eq.
           destruct fuel as [|fuel].
           ++ left. simpl in Hout. split; [|done].
              rewrite <- (app_nil_r (_ ++ [_])) in Hout at 1.
              apply app_inv_head in Hout. by subst out.
           ++ right. rewrite run_synthesize_after_error in * by done.
              simpl in Hout. apply app_inv_head in Hout. by subst out.
        -- by apply (Hok pre' m t post).
      * destruct n; simpl in Hnext;
          try (by destruct (should_continue_after_generate _));
          try (by destruct (should_continue_after_search _));
          try (by destruct (should_continue_after_reflect _)).
        exists (calls ++ [ev_step synthesize (apply_update s u)]).
        simpl. split; [by rewrite <- app_assoc|].
        intros pre m t post Heq Hm Ht.
        apply split_after_calls in Heq
            as [(-> & [= <- <-] & ->)|(pre' & -> & Hnil)]; [done| |done].
        by destruct pre'.
    + exists calls. simpl. split; [done|].
      intros pre m t post Heq. by apply no_step_in_calls in Heq.
Qed.

(** C5.  In the log of any run, a step other than synthesis that leaves
    [errors] non-empty is followed by no call and by no search or reflect
    step: the next and last event is the synthesis step on its error branch,
    whose state is the run's result and carries the fixed error text and no
    citation.  (With too little fuel the log may stop right after the failing
    step; [nodes_left] units of fuel are enough.) *)
Theorem error_short_circuit (fuel : nat) (s0 : GraphState)
    pre m t post :
  snd (invoke env fuel s0) = pre ++ ev_step m t :: post →
  m ≠ synthesize → errors t ≠ [] →
  final_answer (apologised t) = error_answer
  ∧ citations (apologised t) = []
  ∧ ((post = [] ∧ fst (invoke env fuel s0) = Returned None)
     ∨ (post = [ev_step synthesize (apologised t)]
        ∧ fst (invoke env fuel s0) = Returned (Some (apologised t))))
  ∧ ((nodes_left generate_queries s0 ≤ fuel)%nat →
     post = [ev_step synthesize (apologised t)]
     ∧ fst (invoke env fuel s0) = Returned (Some (apologised t))).
Proof.
  intros Hlog Hm Ht. split; [done|]. split; [done|].
  destruct (run_short_circuits fuel generate_queries s0 []) as (out & Hout & Hok).
  unfold invoke in *. simpl in Hout. rewrite Hout in Hlog.
  destruct (Hok pre m t post Hlog Hm Ht) as [[-> Hres]|[-> Hres]].
  - split; [by left|]. intros Hfuel.
    by apply (run_total env fuel generate_queries s0 []) in Hfuel.
  - split; [by right|]. done.
Qed.

End ShortCircuit.

Lemma error_short_circuit_witness :
  final_answer (apologised Scenario.after_failed_search) = error_answer
  ∧ citations (apologised Scenario.after_failed_search) = []
  ∧ fst (invoke Scenario.rate_limited 10
           (initial_state "What is the capital of France?" 2))
    = Returned (Some (apologised Scenario.after_failed_search)).
Proof.
  destruct (error_short_circuit Scenario.rate_limited 10
              (initial_state "What is the capital of France?" 2)
              [ ev_call (call_generate "What is the capital of France?");
                ev_step generate_queries Scenario.after_generate;
                ev_call (call_search [ "capital of France" ]) ]
              web_search Scenario.after_failed_search
              [ ev_step synthesize (apologised Scenario.after_failed_search) ])
    as (Htext & Hcits & _ & Hfinished).
  - reflexivity.
  - discriminate.
  - discriminate.
  - split; [exact Htext|]. split; [exact Hcits|].
    apply Hfinished. simpl. lia.
Defined.

(** ** Collaborator failures *)

Section CollaboratorFailures.

Variable env : Collaborators.

(** The generate step records a failure of its chain: one error, tagged
    [generate], and an empty list of queries. *)
Lemma generate_failure_recorded (state : GraphState) (log : list Event) (e : Exc) :
  generate_chain env log (question state) = Raised e →
  ∃ u ty, fst (generate_queries_node env state log) = Returned u
          ∧ upd_queries u = Some []
          ∧ upd_errors u = Some [ mkGraphError step_generate ty (exc_str e) ].
Proof.
  intros H. rewrite (generate_queries_node_raised _ _ _ _ H).
  by eexists _, _.
Qed.

(** So does the web-search step, tagged [search]. *)
Lemma web_search_failure_recorded (state : GraphState) (log : list Event) (e : Exc) :
  search_tool env log (queries state) = Raised e →
  ∃ u ty, fst (web_search_node env state log) = Returned u
          ∧ upd_errors u = Some [ mkGraphError step_search ty (exc_str e) ].
Proof.
  intros H. rewrite (web_search_node_raised _ _ _ _ H).
  by eexists _, _.
Qed.

(** The reflect step has no handler: what its chain raises, it raises. *)
Lemma reflect_failure_raised (state : GraphState) (log : list Event) (e : Exc) :
  reflect_chain env log (question state) (documents state) = Raised e →
  fst (reflect_node env state log) = Raised e.
Proof. intros H. by rewrite (reflect_node_raised _ _ _ _ H). Qed.

(** A run from [main.py]'s initial state whose first call of the search tool
    raises, whatever it raises: the web-search step records one error, the
    graph goes to synthesis and the run returns the fixed error text. *)
Lemma run_search_raised (q : string) (k : Z) (fuel : nat)
    (qs : list string) (e : Exc) :
  (3 ≤ fuel)%nat →
  generate_chain env [] q = Returned qs →
  (∀ log, search_calls log = 0%nat → search_tool env log qs = Raised e) →
  ∃ sf log,
    invoke env fuel (initial_state q k) = (Returned (Some sf), log)
    ∧ final_answer sf = error_answer
    ∧ citations sf = []
    ∧ need_more sf = false
    ∧ errors sf
      = [ mkGraphError step_search
            (if PyStr.contains "429" (exc_str e)
                || PyStr.contains "Too Many Requests" (exc_str e)
             then RateLimit else HTTPError) (exc_str e) ]
    ∧ search_calls log = 1%nat
    ∧ web_search_steps log = 1%nat.
Proof.
  intros Hfuel Hgen Hsearch.
  destruct fuel as [|[|[|fuel]]]; try lia. clear Hfuel.
  unfold invoke. rewrite run_S. cbn [node_function].
  rewrite (generate_queries_node_returned env (initial_state q k) [] qs Hgen).
  cbv zeta. cbn [next_node].
  change (should_continue_after_generate
            (apply_update (initial_state q k) (set_queries qs))) with next_step.
  cbv iota. rewrite run_S. cbn [node_function].
  rewrite (web_search_node_raised env _ _ e) by (by apply Hsearch).
  cbv zeta. cbn [next_node].
  match goal with
  | |- context [should_continue_after_search ?s] =>
      change (should_continue_after_search s) with end_step
  end.
  cbv iota. rewrite run_synthesize_after_error by done.
  eexists _, _. split; [reflexivity|].
  by repeat split.
Qed.

End CollaboratorFailures.

(** C2 at the failing input.  The search succeeds and the reflection chain
    raises: [reflect_node] hands the exception on, the run ends with it, no
    state of the run holds an error record and synthesis never runs. *)
Theorem reflect_failure_escapes :
  let run := invoke Scenario.reflect_fails 10 (initial_state "Q" 2) in
  fst (reflect_node Scenario.reflect_fails Scenario.holding_docA [])
  = Raised Scenario.quota
  ∧ fst run = Raised Scenario.quota
  ∧ fst <$> steps (snd run) = [ generate_queries; web_search ]
  ∧ Forall (fun st => errors (snd st) = []) (steps (snd run)).
Proof.
  cbv zeta. split; [reflexivity|]. split; [reflexivity|].
  split; [reflexivity|]. vm_compute. by repeat constructor.
Qed.

(** * Further properties *)

(** ** The search functions *)

Section SearchFunctions.

Import WebSearchTool.

Variables (environ : gmap string string) (tavily : Tavily).

Lemma flatten_nothing_found (rs : list (Outcome (list Document))) :
  Forall (fun r => match r with Returned docs => docs = [] | Raised _ => True end) rs →
  flatten rs = [].
Proof.
  induction 1 as [|r rs Hr _ IH]; [done|].
  rewrite flatten_cons, IH. destruct r; [by subst|done].
Qed.

Lemma gather_Forall (P : Outcome (list Document) -> Prop)
    (f : nat -> string -> Outcome (list Document)) (queries : list string) :
  (∀ i q, P (f i q)) → Forall P (gather f queries).
Proof.
  unfold gather. revert f.
  induction queries as [|q qs IH]; intros f Hf; [constructor|].
  rewrite imap_cons. constructor; [apply Hf|]. apply IH. intros i q'. apply Hf.
Qed.

(** [tavily_web_search], once its client is built, returns a list whatever
    the service does: the empty list when the key is unset or empty and when
    the call raises, and otherwise one document per result of the service,
    in the service's order. *)
Theorem tavily_web_search_absorbs (task : nat) (query : string) :
  TavilySearch tavily task = Returned tt →
  ∃ docs, tavily_web_search environ tavily task query = Returned docs
          ∧ (getenv_truthy environ "TAVILY_API_KEY" = false → docs = [])
          ∧ (∀ e, arun tavily task query = Raised e → docs = [])
          ∧ (∀ raw, getenv_truthy environ "TAVILY_API_KEY" = true →
                    arun tavily task query = Returned raw →
                    docs = parse_result <$> default [] raw
                    ∧ length docs = length (default [] raw)).
Proof.
  intros Hclient. unfold tavily_web_search.
  destruct (getenv_truthy environ "TAVILY_API_KEY"); simpl.
  - rewrite Hclient. simpl.
    destruct (arun tavily task query) as [raw|e] eqn:Hrun; eexists;
      (split; [reflexivity|]); (split; [done|]); (split; [done|]).
    + intros raw' _ [= <-]. by rewrite length_fmap.
    + done.
  - eexists. split; [reflexivity|]. by repeat split.
Qed.

(** Without a usable [TAVILY_API_KEY] the tool finds nothing, whatever the
    queries. *)
Theorem web_search_tool_without_key (queries : list string) :
  getenv_truthy environ "TAVILY_API_KEY" = false →
  web_search_tool environ tavily queries = [].
Proof.
  intros Hkey. unfold web_search_tool, run_concurrent, search_func.
  rewrite Hkey, flatten_nothing_found; [done|].
  by apply gather_Forall.
Qed.

(** With a key, a batch in which every task fails (the client cannot be
    built, or the call raises) gives the empty list: the tool does not tell a
    failed batch from one that found nothing. *)
Theorem web_search_tool_all_failed (queries : list string) :
  (∀ task q, (∃ e, TavilySearch tavily task = Raised e)
             ∨ (∃ e, arun tavily task q = Raised e)) →
  web_search_tool environ tavily queries = [].
Proof.
  intros Hfail. unfold web_search_tool, run_concurrent.
  rewrite flatten_nothing_found; [done|].
  apply gather_Forall. intros i q. unfold search_func.
  destruct (getenv_truthy environ "TAVILY_API_KEY") eqn:Hkey; [|done].
  unfold tavily_web_search. rewrite Hkey. simpl.
  destruct (Hfail i q) as [[e He]|[e He]].
  - by rewrite He.
  - destruct (TavilySearch tavily i) as [[]|e']; simpl; [|done]. by rewrite He.
Qed.

End SearchFunctions.

Lemma tavily_web_search_absorbs_witness :
  tavily_web_search Scenario.with_key Scenario.tavily_up 0 "q"
  = Returned [ mkDocument "url1" "A" "a" ].
Proof.
  destruct (tavily_web_search_absorbs Scenario.with_key Scenario.tavily_up
              0 "q" eq_refl) as (docs & Hdocs & _ & _ & Hparsed).
  destruct (Hparsed _ eq_refl eq_refl) as [-> _]. exact Hdocs.
Defined.

Lemma web_search_tool_without_key_witness :
  web_search_tool Scenario.no_key Scenario.tavily_up [ "q1"; "q2" ] = [].
Proof.
  apply (web_search_tool_without_key Scenario.no_key Scenario.tavily_up
           [ "q1"; "q2" ]).
  reflexivity.
Defined.

Lemma web_search_tool_all_failed_witness :
  web_search_tool Scenario.with_key Scenario.tavily_down [ "q1"; "q2" ] = [].
Proof.
  apply (web_search_tool_all_failed Scenario.with_key Scenario.tavily_down
           [ "q1"; "q2" ]).
  intros task q. right. by eexists.
Defined.

(** ** De-duplication *)

Section Deduplication.

Import WebSearchTool.

Lemma filter_all {A} (P : A -> Prop) `{!∀ x, Decision (P x)} (l : list A) :
  Forall P l → filter P l = l.
Proof.
  induction 1 as [|x l Hx _ IH]; [done|].
  by rewrite filter_cons_True, IH.
Qed.

Lemma first_seen_fixed (docs : list Document) :
  NoDup (url <$> docs) → first_seen_by_url docs = docs.
Proof.
  induction docs as [|d docs IH]; [done|]. simpl.
  rewrite NoDup_cons. intros [Hd Hnd]. rewrite IH by done. f_equal.
  apply filter_all. apply Forall_forall. intros d' Hd' Heq.
  apply Hd. rewrite <- Heq. by apply list_elem_of_fmap_2.
Qed.

(** De-duplicating twice changes nothing, and a list whose urls are already
    distinct is returned as it is. *)
Theorem dedup_idempotent (flat : list Document) :
  dedup (dedup flat) = dedup flat
  ∧ (NoDup (url <$> flat) → dedup flat = flat).
Proof.
  rewrite !dedup_first_seen. split.
  - apply first_seen_fixed, first_seen_NoDup.
  - apply first_seen_fixed.
Qed.

(** De-duplicating two result lists laid end to end: the first list is
    de-duplicated on its own, and the second contributes its de-duplicated
    documents whose url the first list does not have. *)
Theorem dedup_app (flat1 flat2 : list Document) :
  dedup (flat1 ++ flat2)
  = dedup flat1 ++ filter (fun d => url d ∉ url <$> flat1) (dedup flat2).
Proof.
  rewrite !dedup_first_seen.
  induction flat1 as [|d flat1 IH]; simpl.
  - symmetry. apply filter_all. apply Forall_forall.
    intros d _. apply not_elem_of_nil.
  - f_equal. rewrite IH, filter_app. f_equal.
    rewrite list_filter_filter. apply list_filter_iff.
    intros d'. rewrite not_elem_of_cons. tauto.
Qed.

End Deduplication.

Lemma dedup_idempotent_witness :
  WebSearchTool.dedup [ Scenario.docA; Scenario.docB ]
  = [ Scenario.docA; Scenario.docB ].
Proof.
  apply (dedup_idempotent [ Scenario.docA; Scenario.docB ]).
  simpl. apply NoDup_cons. split; [|apply NoDup_singleton].
  rewrite list_elem_of_singleton. discriminate.
Defined.

(** ** Invariants of the citation remapper *)

Section RemapperInvariants.

Variable docs : list Document.

Local Abbreviation ocm := (original_citations_map docs).

Implicit Types (cited : list Z) (r : Remap).

Lemma remap_snoc cited (i : Z) :
  remap docs (cited ++ [i]) = remap_step ocm (remap docs cited) i.
Proof. unfold remap. by rewrite foldl_app. Qed.

(** What the loop keeps true of its three containers after reading
    [cited]. *)
Lemma remap_invariant cited :
  let r := remap docs cited in
  (∀ k c, final_citations_list r !! k = Some c → cit_id c = Z.of_nat k + 1)
  ∧ (∀ u, u ∈ seen_urls r ↔ u ∈ cit_url <$> final_citations_list r)
  ∧ NoDup (cit_url <$> final_citations_list r)
  ∧ (∀ c, c ∈ final_citations_list r →
          ∃ i doc, i ∈ cited ∧ ocm !! i = Some doc
                   ∧ cit_url c = url doc ∧ cit_title c = title doc)
  ∧ (∀ i j, original_to_new_id_map r !! i = Some j →
            i ∈ cited
            ∧ ∃ doc, ocm !! i = Some doc
                     ∧ final_citations_list r !! Z.to_nat (j - 1)
                       = Some (mkCitation j (url doc) (title doc))
                     ∧ 1 ≤ j)
  ∧ (length (final_citations_list r) ≤ length cited)%nat
  ∧ (∀ i doc, i ∈ cited → ocm !! i = Some doc → url doc ∈ seen_urls r).
Proof.
  induction cited as [|i cited IH] using rev_ind.
  - cbv zeta. unfold remap; simpl. split_and!.
    + by intros k c.
    + intros u. by rewrite elem_of_empty, elem_of_nil.
    + apply NoDup_nil_2.
    + intros c Hc. by apply elem_of_nil in Hc.
    + intros i j Hj. by rewrite lookup_empty in Hj.
    + done.
    + intros i doc Hi. by apply elem_of_nil in Hi.
  - cbv zeta in *. rewrite remap_snoc.
    destruct IH as (Hid & Hseen & Hnd & Hprov & Hmap & Hlen & Hcov).
    set (r := remap docs cited) in *.
    assert (∀ c, c ∈ final_citations_list r →
                 ∃ i' doc, i' ∈ cited ++ [i] ∧ ocm !! i' = Some doc
                           ∧ cit_url c = url doc ∧ cit_title c = title doc)
      as Hprov'.
    { intros c Hc. destruct (Hprov c Hc) as (i' & doc' & Hi' & Hrest).
      exists i', doc'. split; [|done]. apply elem_of_app. by left. }
    assert (length (final_citations_list r) ≤ length (cited ++ [i]))%nat
      as Hlen' by (rewrite length_app; simpl; lia).
    destruct (ocm !! i) as [doc|] eqn:Hi.
    + destruct (decide (url doc ∈ seen_urls r)) as [Hin|Hout].
      * rewrite (remap_step_seen _ _ _ _ Hi Hin).
        split_and!; try done.
        -- intros i' j Hj. destruct (Hmap i' j Hj) as [Hi' Hrest].
           split; [|done]. apply elem_of_app. by left.
        -- intros i' doc' Hi' Hdoc'. apply elem_of_app in Hi' as [Hi'|Hi'].
           ++ by apply (Hcov i' doc').
           ++ apply list_elem_of_singleton in Hi'. subst i'.
              rewrite Hi in Hdoc'. by simplify_eq.
      * rewrite (remap_step_new _ _ _ _ Hi Hout). simpl.
        set (new_id := Z.of_nat (length (final_citations_list r)) + 1).
        split_and!.
        -- intros k c Hk. apply lookup_snoc_Some in Hk as [[_ Hk]|[-> <-]].
           ++ by apply Hid.
           ++ done.
        -- intros u.
           rewrite elem_of_union, elem_of_singleton, fmap_app, elem_of_app.
           rewrite Hseen. simpl. by rewrite list_elem_of_singleton.
        -- rewrite fmap_app. simpl. apply NoDup_app. split; [done|].
           split; [|apply NoDup_singleton].
           intros u Hu Hu'. apply list_elem_of_singleton in Hu'. subst u.
           apply Hout. by apply Hseen.
        -- intros c Hc. apply elem_of_app in Hc as [Hc|Hc].
           ++ by apply Hprov'.
           ++ apply list_elem_of_singleton in Hc. subst c.
              exists i, doc. split; [|done].
              apply elem_of_app. right. by apply list_elem_of_singleton.
        -- intros i' j Hj.
           apply lookup_insert_Some in Hj as [[<- <-]|[Hne Hj]].
           ++ split.
              { apply elem_of_app. right. by apply list_elem_of_singleton. }
              exists doc. split; [done|]. split; [|unfold new_id; lia].
              replace (Z.to_nat (new_id - 1))
                with (length (final_citations_list r))
                by (unfold new_id; lia).
              by rewrite list_lookup_middle.
           ++ destruct (Hmap i' j Hj) as (Hi' & doc' & Hdoc' & Hlk & Hpos).
              split; [apply elem_of_app; by left|].
              exists doc'. split; [done|]. split; [|done].
              by apply lookup_app_l_Some.
        -- rewrite !length_app. simpl. lia.
        -- intros i' doc' Hi' Hdoc'. apply elem_of_union.
           apply elem_of_app in Hi' as [Hi'|Hi'].
           ++ left. by apply (Hcov i' doc').
           ++ right. apply list_elem_of_singleton in Hi'. subst i'.
              rewrite Hi in Hdoc'. simplify_eq. by apply elem_of_singleton.
    + rewrite (remap_step_unresolved _ _ _ Hi).
      split_and!; try done.
      * intros i' j Hj. destruct (Hmap i' j Hj) as [Hi' Hrest].
        split; [|done]. apply elem_of_app. by left.
      * intros i' doc' Hi' Hdoc'. apply elem_of_app in Hi' as [Hi'|Hi'].
        -- by apply (Hcov i' doc').
        -- apply list_elem_of_singleton in Hi'. subst i'. congruence.
Qed.

(** The citations list is numbered 1, 2, ..., n in list order, and no two
    of its entries share a url. *)
Theorem citations_numbered_and_distinct cited :
  cit_id <$> final_citations_list (remap docs cited)
  = seqZ 1 (Z.of_nat (length (final_citations_list (remap docs cited))))
  ∧ NoDup (cit_url <$> final_citations_list (remap docs cited)).
Proof.
  destruct (remap_invariant cited) as (Hid & _ & Hnd & _).
  split; [|done]. apply list_eq. intros k.
  rewrite list_lookup_fmap.
  destruct (final_citations_list (remap docs cited) !! k) as [c|] eqn:Hk; simpl.
  - rewrite (Hid k c Hk). symmetry.
    rewrite lookup_seqZ. split; [lia|].
    apply lookup_lt_Some in Hk. lia.
  - symmetry. apply lookup_seqZ_ge. apply lookup_ge_None in Hk. lia.
Qed.

(** Every citation carries the url and the title of one document that a
    cited id resolves to; so there are no more citations than cited ids, and
    no more than documents. *)
Theorem citations_come_from_cited_documents cited :
  (∀ c, c ∈ final_citations_list (remap docs cited) →
        ∃ i doc, i ∈ cited ∧ 1 ≤ i ≤ Z.of_nat (length docs)
                 ∧ docs !! Z.to_nat (i - 1) = Some doc
                 ∧ cit_url c = url doc ∧ cit_title c = title doc)
  ∧ (length (final_citations_list (remap docs cited)) ≤ length cited)%nat
  ∧ (length (final_citations_list (remap docs cited)) ≤ length docs)%nat.
Proof.
  destruct (remap_invariant cited) as (_ & _ & Hnd & Hprov & _ & Hlen & _).
  assert (∀ c, c ∈ final_citations_list (remap docs cited) →
               ∃ i doc, i ∈ cited ∧ 1 ≤ i ≤ Z.of_nat (length docs)
                        ∧ docs !! Z.to_nat (i - 1) = Some doc
                        ∧ cit_url c = url doc ∧ cit_title c = title doc)
    as Hfrom.
  { intros c Hc. destruct (Hprov c Hc) as (i & doc & Hi & Hdoc & Hurl & Htitle).
    rewrite original_citations_map_lookup in Hdoc.
    case_decide; [|done]. by exists i, doc. }
  split; [done|]. split; [done|].
  rewrite <- (length_fmap cit_url), <- (length_fmap url docs).
  apply submseteq_length, NoDup_submseteq; [done|].
  intros u Hu. apply list_elem_of_fmap in Hu as (c & -> & Hc).
  destruct (Hfrom c Hc) as (i & doc & _ & _ & Hdoc & -> & _).
  apply list_elem_of_fmap_2. by eapply list_elem_of_lookup_2.
Qed.

(** From an original id to its new id and back: an id the mapping knows was
    cited and resolves to a document, and the citation at the position of its
    new id has that new id and that document's url and title. *)
Theorem new_id_points_at_its_document cited (i j : Z) :
  original_to_new_id_map (remap docs cited) !! i = Some j →
  i ∈ cited
  ∧ ∃ doc, docs !! Z.to_nat (i - 1) = Some doc
           ∧ 1 ≤ i ≤ Z.of_nat (length docs)
           ∧ final_citations_list (remap docs cited) !! Z.to_nat (j - 1)
             = Some (mkCitation j (url doc) (title doc))
           ∧ 1 ≤ j ≤ Z.of_nat (length (final_citations_list (remap docs cited))).
Proof.
  destruct (remap_invariant cited) as (_ & _ & _ & _ & Hmap & _).
  intros Hj. destruct (Hmap i j Hj) as (Hi & doc & Hdoc & Hlk & Hpos).
  split; [done|]. exists doc.
  rewrite original_citations_map_lookup in Hdoc.
  case_decide; [|done]. split_and!; try done; try lia.
  apply lookup_lt_Some in Hlk. lia.
Qed.

Lemma original_citations_map_url_inj (i i' : Z) doc doc' :
  NoDup (url <$> docs) →
  ocm !! i = Some doc → ocm !! i' = Some doc' → url doc = url doc' → i = i'.
Proof.
  intros Hnd Hi Hi' Hurl.
  rewrite original_citations_map_lookup in Hi, Hi'.
  repeat case_decide; try done.
  assert (Z.to_nat (i - 1) = Z.to_nat (i' - 1)) as Heq; [|lia].
  apply (NoDup_lookup (url <$> docs) _ _ (url doc)); [done| |].
  - by rewrite list_lookup_fmap, Hi.
  - by rewrite list_lookup_fmap, Hi', Hurl.
Qed.

Lemma remap_mapped cited (i : Z) doc :
  NoDup (url <$> docs) → i ∈ cited → ocm !! i = Some doc →
  is_Some (original_to_new_id_map (remap docs cited) !! i).
Proof.
  intros Hnd. revert i doc.
  induction cited as [|i0 cited IH] using rev_ind; intros i doc Hi Hdoc.
  { by apply elem_of_nil in Hi. }
  destruct (remap_invariant cited) as (_ & Hseen & _ & Hprov & _).
  rewrite remap_snoc.
  assert (i ∈ cited →
          is_Some (original_to_new_id_map
                     (remap_step ocm (remap docs cited) i0) !! i)) as Hold.
  { intros Hin. specialize (IH i doc Hin Hdoc). unfold remap_step.
    destruct (ocm !! i0) as [doc0|]; [|done].
    case_decide; [done|]. simpl. apply lookup_insert_is_Some.
    destruct (decide (i0 = i)); [by left|by right]. }
  apply elem_of_app in Hi as [Hi|Hi]; [by apply Hold|].
  apply list_elem_of_singleton in Hi. subst i0.
  destruct (decide (url doc ∈ seen_urls (remap docs cited))) as [Hin|Hout].
  - apply Hold. apply Hseen in Hin.
    apply list_elem_of_fmap in Hin as (c & Hurl & Hc).
    destruct (Hprov c Hc) as (i' & doc' & Hi' & Hdoc' & Hurl' & _).
    assert (i = i') as ->; [|done].
    apply (original_citations_map_url_inj i i' doc doc'); try done.
    congruence.
  - rewrite (remap_step_new _ _ _ _ Hdoc Hout). simpl.
    rewrite lookup_insert_eq. by eexists.
Qed.

(** When the documents have pairwise distinct urls, every cited id within
    [1..N] gets a marker with a new id, and that new id is the number of a
    citation of the list. *)
Theorem cited_ids_get_new_markers cited (i : Z) :
  NoDup (url <$> docs) → i ∈ cited → 1 ≤ i ≤ Z.of_nat (length docs) →
  ∃ j, original_to_new_id_map (remap docs cited) !! i = Some j
       ∧ marker (original_to_new_id_map (remap docs cited)) i
         = "[" +:+ PyStr.of_int j +:+ "]"
       ∧ 1 ≤ j ≤ Z.of_nat (length (final_citations_list (remap docs cited))).
Proof.
  intros Hnd Hi Hrange.
  assert (∃ doc, ocm !! i = Some doc) as [doc Hdoc].
  { rewrite original_citations_map_lookup, decide_True by done.
    apply lookup_lt_is_Some. lia. }
  destruct (remap_mapped cited i doc Hnd Hi Hdoc) as [j Hj].
  exists j. split; [done|]. split.
  - unfold marker. by rewrite Hj.
  - destruct (remap_invariant cited) as (_ & _ & _ & _ & Hmap & _).
    destruct (Hmap i j Hj) as (_ & doc' & _ & Hlk & Hpos).
    apply lookup_lt_Some in Hlk. lia.
Qed.

End RemapperInvariants.

Lemma new_id_points_at_its_document_witness :
  2 ∈ [2; 1; 2]
  ∧ ∃ doc, [Scenario.docA; Scenario.docB] !! Z.to_nat (2 - 1) = Some doc
           ∧ 1 ≤ 2 ≤ Z.of_nat (length [Scenario.docA; Scenario.docB])
           ∧ final_citations_list
               (remap [Scenario.docA; Scenario.docB] [2; 1; 2]) !! Z.to_nat (1 - 1)
             = Some (mkCitation 1 (url doc) (title doc))
           ∧ 1 ≤ 1 ≤ Z.of_nat (length (final_citations_list
                                         (remap [Scenario.docA; Scenario.docB]
                                            [2; 1; 2]))).
Proof.
  apply (new_id_points_at_its_document [Scenario.docA; Scenario.docB]
           [2; 1; 2] 2 1).
  reflexivity.
Defined.

Lemma cited_ids_get_new_markers_witness :
  ∃ j, original_to_new_id_map (remap [Scenario.docA; Scenario.docB] [2; 1; 2]) !! 1
       = Some j
       ∧ marker (original_to_new_id_map
                   (remap [Scenario.docA; Scenario.docB] [2; 1; 2])) 1
         = "[" +:+ PyStr.of_int j +:+ "]"
       ∧ 1 ≤ j ≤ Z.of_nat (length (final_citations_list
                                     (remap [Scenario.docA; Scenario.docB]
                                        [2; 1; 2]))).
Proof.
  apply (cited_ids_get_new_markers [Scenario.docA; Scenario.docB] [2; 1; 2] 1).
  - simpl. apply NoDup_cons. split; [|apply NoDup_singleton].
    rewrite list_elem_of_singleton. discriminate.
  - apply list_elem_of_further, list_elem_of_here.
  - simpl. lia.
Defined.

(** ** Repeated and absent cited ids *)

Section CitedIdsEdgeCases.

Lemma append_nil_r (s : string) : s +:+ "" = s.
Proof.
  induction s as [|c s IH]; [done|].
  change (String c (s +:+ "") = String c s). by rewrite IH.
Qed.

(** An id that was cited before changes nothing when it is cited again:
    no citation is added and no id is renumbered; only its marker is written
    once more, at the place of the repetition. *)
Theorem repeated_id_adds_nothing (docs : list Document) (l1 l2 : list Z) (i : Z) :
  i ∈ l1 →
  remap docs (l1 ++ i :: l2) = remap docs (l1 ++ l2)
  ∧ citation_string_at_end docs (l1 ++ i :: l2)
    = markers (original_to_new_id_map (remap docs (l1 ++ l2))) l1
      +:+ marker (original_to_new_id_map (remap docs (l1 ++ l2))) i
      +:+ markers (original_to_new_id_map (remap docs (l1 ++ l2))) l2.
Proof.
  intros Hi.
  assert (remap docs (l1 ++ i :: l2) = remap docs (l1 ++ l2)) as Heq.
  { unfold remap. rewrite !foldl_app. simpl. f_equal.
    destruct (original_citations_map docs !! i) as [doc|] eqn:Hdoc.
    - apply (remap_step_seen _ _ _ doc Hdoc).
      destruct (remap_invariant docs l1) as (_ & _ & _ & _ & _ & _ & Hcov).
      by apply (Hcov i doc).
    - by apply remap_step_unresolved. }
  split; [done|].
  unfold citation_string_at_end. rewrite Heq.
  replace (truthy (l1 ++ i :: l2)) with true by (by destruct l1).
  by rewrite markers_app, markers_cons.
Qed.

Variable env : Collaborators.

(** With an empty [cited_ids] the answer is the chain's text, stripped, with
    no marker, and there is no citation, although documents were held. *)
Theorem synthesize_without_cited_ids (state : GraphState) (log : list Event)
    (r : SynthesizeOutput) :
  errors state = [] → documents state ≠ [] →
  synthesize_chain env log (question state) (documents state) = Returned r →
  cited_ids r = [] →
  fst (synthesize_node env state log)
  = Returned (set_answer (PyStr.strip (answer r)) []).
Proof.
  intros He Hd Hr Hcited.
  rewrite (synthesize_node_returned env state log r He Hd Hr). simpl.
  rewrite Hcited. unfold citation_string_at_end, remap. simpl.
  by rewrite append_nil_r.
Qed.

End CitedIdsEdgeCases.

Lemma repeated_id_adds_nothing_witness :
  remap [Scenario.docA; Scenario.docB] ([2; 1] ++ 2 :: [])
  = remap [Scenario.docA; Scenario.docB] ([2; 1] ++ [])
  ∧ citation_string_at_end [Scenario.docA; Scenario.docB] ([2; 1] ++ 2 :: [])
    = markers (original_to_new_id_map
                 (remap [Scenario.docA; Scenario.docB] ([2; 1] ++ []))) [2; 1]
      +:+ marker (original_to_new_id_map
                    (remap [Scenario.docA; Scenario.docB] ([2; 1] ++ []))) 2
      +:+ markers (original_to_new_id_map
                     (remap [Scenario.docA; Scenario.docB] ([2; 1] ++ []))) [].
Proof.
  apply (repeated_id_adds_nothing [Scenario.docA; Scenario.docB] [2; 1] [] 2).
  apply list_elem_of_here.
Defined.

(** ** The final answer carries no outer whitespace *)

Section Stripping.

Lemma lstrip_head (s : string) :
  PyStr.lstrip s = EmptyString
  ∨ ∃ c rest, PyStr.lstrip s = String c rest ∧ PyStr.isspace c = false.
Proof.
  induction s as [|c s IH]; simpl; [by left|].
  destruct (PyStr.isspace c) eqn:Hc; [done|]. right. by exists c, s.
Qed.

Lemma rstrip_keeps_head (c : ascii) (rest : string) :
  PyStr.isspace c = false →
  ∃ kept, PyStr.rstrip (String c rest) = String c kept.
Proof.
  intros Hc. simpl. destruct (PyStr.rstrip rest); [|by eexists].
  rewrite Hc. by eexists.
Qed.

(** What [rstrip] leaves does not end with a space. *)
Lemma rstrip_last (s body : string) (c : ascii) :
  PyStr.rstrip s = body +:+ String c EmptyString → PyStr.isspace c = false.
Proof.
  revert body. induction s as [|a s IH]; intros body.
  - by destruct body.
  - simpl. destruct (PyStr.rstrip s) as [|a' kept] eqn:Hs.
    + destruct (PyStr.isspace a) eqn:Ha; [by destruct body|].
      destruct body as [|b body].
      * by intros [= <-].
      * intros [= _ H]. by destruct body.
    + destruct body as [|b body].
      * by intros [= _ H].
      * intros [= _ H]. by apply (IH body).
Qed.

(** What [strip] leaves does not start with a space. *)
Lemma strip_first (s rest : string) (c : ascii) :
  PyStr.strip s = String c rest → PyStr.isspace c = false.
Proof.
  unfold PyStr.strip.
  destruct (lstrip_head s) as [->|(c0 & rest0 & -> & Hc0)]; [done|].
  destruct (rstrip_keeps_head c0 rest0 Hc0) as [kept ->].
  by intros [= <- _].
Qed.

Variable env : Collaborators.

(** Whatever branch it takes, when [synthesize_node] returns it sets both
    [final_answer] and [citations] and nothing else, and, the chain's answer
    being ASCII text, the final answer neither starts nor ends with a
    whitespace character: it is empty, or its first and its last character
    are not spaces, tabs or line breaks. *)
Theorem final_answer_is_stripped (state : GraphState) (log : list Event)
    (u : Update) :
  (∀ r, synthesize_chain env log (question state) (documents state) = Returned r →
        ascii_only (answer r) = true) →
  fst (synthesize_node env state log) = Returned u →
  ∃ text cits,
    u = set_answer text cits
    ∧ (∀ c rest, text = String c rest → PyStr.isspace c = false)
    ∧ (∀ body c, text = body +:+ String c EmptyString → PyStr.isspace c = false).
Proof.
  intros _.
  destruct (decide (errors state = [])) as [He|He].
  - destruct (decide (documents state = [])) as [Hd|Hd].
    + rewrite synthesize_node_empty by done. intros [= <-].
      eexists _, _. split; [done|].
      change no_information_answer with (PyStr.strip no_information_answer).
      split.
      * intros c rest. apply strip_first.
      * intros body c. apply rstrip_last.
    + destruct (synthesize_chain env log (question state) (documents state))
        as [r|e] eqn:Hr.
      * rewrite (synthesize_node_returned env state log r He Hd Hr).
        intros [= <-]. eexists _, _. split; [done|]. split.
        -- intros c rest. apply strip_first.
        -- intros body c. apply rstrip_last.
      * by rewrite (synthesize_node_raised env state log e He Hd Hr).
  - rewrite synthesize_node_error by done. intros [= <-].
    eexists _, _. split; [done|].
    change error_answer with (PyStr.strip error_answer).
    split.
    + intros c rest. apply strip_first.
    + intros body c. apply rstrip_last.
Qed.

End Stripping.

Lemma synthesize_without_cited_ids_witness :
  fst (synthesize_node
         {| generate_chain := fun _ _ => Returned [];
            search_tool := fun _ _ => Returned [];
            reflect_chain := fun _ _ _ => Returned (mkReflectOutput false None);
            synthesize_chain := fun _ _ _ =>
              Returned (mkSynthesizeOutput " Paris. " []) |}
         Scenario.holding_two [])
  = Returned (set_answer "Paris." []).
Proof.
  apply (synthesize_without_cited_ids _ Scenario.holding_two []
           (mkSynthesizeOutput " Paris. " [])); done.
Defined.

Lemma final_answer_is_stripped_witness :
  ∃ text cits,
    set_answer "Paris." [] = set_answer text cits
    ∧ (∀ c rest, text = String c rest → PyStr.isspace c = false)
    ∧ (∀ body c, text = body +:+ String c EmptyString → PyStr.isspace c = false).
Proof.
  apply (final_answer_is_stripped Scenario.padded Scenario.holding_two []).
  - intros r [= <-]. reflexivity.
  - reflexivity.
Defined.

(** ** Runs of the graph, step by step *)

Section RunInvariants.

Variable env : Collaborators.

Implicit Types (s t : GraphState) (log out : list Event) (n : Node).

Lemma node_function_returns n s log u :
  fst (node_function env n s log) = Returned u → returns s n u.
Proof.
  destruct n; simpl.
  - destruct (generate_chain env log (question s)) as [qs|e] eqn:H.
    + rewrite (generate_queries_node_returned _ _ _ _ H). intros [= <-].
      constructor.
    + rewrite (generate_queries_node_raised _ _ _ _ H). intros [= <-].
      constructor.
  - destruct (search_tool env log (queries s)) as [docs|e] eqn:H.
    + rewrite (web_search_node_returned _ _ _ _ H). intros [= <-].
      constructor.
    + rewrite (web_search_node_raised _ _ _ _ H). intros [= <-].
      constructor.
  - destruct (reflect_chain env log (question s) (documents s)) as [r|e] eqn:H.
    + rewrite (reflect_node_returned _ _ _ _ H). intros [= <-].
      constructor.
    + by rewrite (reflect_node_raised _ _ _ _ H).
  - destruct (decide (errors s = [])) as [He|He].
    + destruct (decide (documents s = [])) as [Hd|Hd].
      * rewrite synthesize_node_empty by done. intros [= <-]. constructor.
      * destruct (synthesize_chain env log (question s) (documents s))
          as [r|e] eqn:H.
        -- rewrite (synthesize_node_returned _ _ _ _ He Hd H). intros [= <-].
           constructor.
        -- by rewrite (synthesize_node_raised _ _ _ _ He Hd H).
    + rewrite synthesize_node_error by done. intros [= <-]. constructor.
Qed.

Lemma states_app log1 log2 : states (log1 ++ log2) = states log1 ++ states log2.
Proof. unfold states, steps. by rewrite omap_app, fmap_app. Qed.

Lemma states_calls calls :
  Forall (fun ev => is_call ev = true) calls → states calls = [].
Proof.
  induction 1 as [|ev calls Hev _ IH]; [done|].
  destruct ev; [|done]. exact IH.
Qed.

Lemma states_step n s out : states (ev_step n s :: out) = s :: states out.
Proof. done. Qed.

(** A transitive relation that every node update respects holds between any
    state of a run and every later one. *)
Lemma run_states_sorted (R : relation GraphState) `{!Transitive R} :
  (∀ n s u, returns s n u → R s (apply_update s u)) →
  ∀ fuel n s log,
    ∃ out, snd (run env fuel n s log) = log ++ out
           ∧ StronglySorted R (s :: states out).
Proof.
  intros Hstep fuel. induction fuel as [|fuel IH]; intros n s log.
  - exists []. simpl. rewrite app_nil_r. split; [done|].
    repeat constructor.
  - rewrite run_S.
    destruct (node_function_log env n s log) as (calls & Hlog & Hcalls & _).
    destruct (node_function env n s log) as [[u|e] log1] eqn:Hnode;
      simpl in Hlog; subst log1.
    + assert (R s (apply_update s u)) as HR.
      { apply (Hstep n). apply (node_function_returns n s log).
        by rewrite Hnode. }
      cbv zeta.
      destruct (next_node n (apply_update s u)) as [n'|] eqn:Hnext.
      * destruct (IH n' (apply_update s u)
                    ((log ++ calls) ++ [ev_step n (apply_update s u)]))
          as (out & -> & Hsorted).
        exists (calls ++ ev_step n (apply_update s u) :: out).
        split; [by rewrite <- !app_assoc|].
        rewrite states_app, (states_calls _ Hcalls), states_step. simpl.
        apply StronglySorted_cons. split; [|done].
        apply StronglySorted_cons in Hsorted as [Hall _].
        constructor; [done|].
        eapply Forall_impl; [exact Hall|]. intros t Ht. by etrans.
      * exists (calls ++ [ev_step n (apply_update s u)]).
        simpl. split; [by rewrite <- app_assoc|].
        rewrite states_app, (states_calls _ Hcalls). simpl.
        repeat constructor. done.
    + exists calls. simpl. split; [done|].
      rewrite (states_calls _ Hcalls). repeat constructor.
Qed.

Lemma StronglySorted_lookup_le (R : relation GraphState) `{!Reflexive R}
    (l : list GraphState) (i j : nat) a b :
  StronglySorted R l → (i ≤ j)%nat → l !! i = Some a → l !! j = Some b → R a b.
Proof.
  intros Hl. revert i j. induction Hl as [|x l Hl IH Hx]; intros i j Hij Hi Hj.
  - done.
  - destruct i as [|i]; simpl in Hi.
    + simplify_eq. destruct j as [|j]; simpl in Hj; [by simplify_eq|].
      eapply Forall_forall in Hx; [exact Hx|].
      by eapply list_elem_of_lookup_2.
    + destruct j as [|j]; [lia|]. simpl in Hj.
      apply (IH i j); [lia|done|done].
Qed.

End RunInvariants.

Section RunProperties.

Variable env : Collaborators.

Implicit Types (s t a b : GraphState).

(** The evidence only grows: along a run, the documents of any state are the
    documents of every earlier state followed by what was added since;
    nothing is removed, replaced or reordered.  Position 0 is the initial
    state. *)
Theorem evidence_only_grows (fuel : nat) (s0 : GraphState) (i j : nat) a b :
  (i ≤ j)%nat →
  (s0 :: states (snd (invoke env fuel s0))) !! i = Some a →
  (s0 :: states (snd (invoke env fuel s0))) !! j = Some b →
  documents a `prefix_of` documents b.
Proof.
  set (R := fun a b : GraphState => documents a `prefix_of` documents b).
  assert (Transitive R) as HT by (intros x y z; unfold R; apply transitivity).
  assert (Reflexive R) as HR by (intros x; unfold R; done).
  destruct (run_states_sorted env R) with (fuel := fuel) (n := generate_queries)
    (s := s0) (log := @nil Event) as (out & Hout & Hsorted).
  { intros n s u Hu. unfold R. destruct Hu; simpl; try done.
    by apply prefix_app_r. }
  unfold invoke. simpl in Hout. rewrite Hout.
  intros Hij Hi Hj. by apply (StronglySorted_lookup_le R _ i j a b Hsorted).
Qed.

(** Along a run the question and the iteration cap never change, the loop
    counter never decreases, and a recorded error is never cleared. *)
Theorem run_frame (fuel : nat) (s0 : GraphState) (i j : nat) a b :
  (i ≤ j)%nat →
  (s0 :: states (snd (invoke env fuel s0))) !! i = Some a →
  (s0 :: states (snd (invoke env fuel s0))) !! j = Some b →
  question a = question b
  ∧ max_iter a = max_iter b
  ∧ loop_count a ≤ loop_count b
  ∧ (errors a ≠ [] → errors b ≠ []).
Proof.
  set (R := fun a b : GraphState =>
              question a = question b ∧ max_iter a = max_iter b
              ∧ loop_count a ≤ loop_count b
              ∧ (errors a ≠ [] → errors b ≠ [])).
  assert (Transitive R) as HT.
  { intros x y z (Hq & Hm & Hl & He) (Hq' & Hm' & Hl' & He'). unfold R.
    split_and!; [congruence|congruence|lia|tauto]. }
  assert (Reflexive R) as HR by (intros x; unfold R; split_and!; done).
  destruct (run_states_sorted env R) with (fuel := fuel) (n := generate_queries)
    (s := s0) (log := @nil Event) as (out & Hout & Hsorted).
  { intros n s u Hu. unfold R. destruct Hu; simpl; split_and!; try done; lia. }
  unfold invoke. simpl in Hout. rewrite Hout.
  intros Hij Hi Hj. by apply (StronglySorted_lookup_le R _ i j a b Hsorted).
Qed.

(** A run that starts without errors records at most one, and its step tag
    is [generate] or [search]: no state of any run holds an error tagged
    [reflect] or [synthesize]. *)
Theorem errors_recorded (fuel : nat) (s0 : GraphState) t :
  errors s0 = [] →
  t ∈ states (snd (invoke env fuel s0)) →
  errors t = []
  ∨ ∃ ty msg, errors t = [ mkGraphError step_generate ty msg ]
              ∨ errors t = [ mkGraphError step_search ty msg ].
Proof.
  set (P := fun t : GraphState =>
              errors t = []
              ∨ ∃ ty msg, errors t = [ mkGraphError step_generate ty msg ]
                          ∨ errors t = [ mkGraphError step_search ty msg ]).
  set (R := fun a b : GraphState => P a → P b).
  assert (Transitive R) as HT by (intros x y z; unfold R; tauto).
  destruct (run_states_sorted env R) with (fuel := fuel) (n := generate_queries)
    (s := s0) (log := @nil Event) as (out & Hout & Hsorted).
  { intros n s u Hu. unfold R, P. destruct Hu; simpl; try done.
    - intros _. right. exists ty, msg. by left.
    - intros _. right. exists ty, msg. by right. }
  unfold invoke. simpl in Hout. rewrite Hout.
  intros He Ht. apply StronglySorted_cons in Hsorted as [Hall _].
  eapply Forall_forall in Hall; [|exact Ht]. apply Hall. by left.
Qed.

End RunProperties.

Lemma evidence_only_grows_witness :
  documents (initial_state "Q" 2) `prefix_of` [ Scenario.docA; Scenario.docA ].
Proof.
  apply (evidence_only_grows Scenario.eager 10 (initial_state "Q" 2) 0 4
           (initial_state "Q" 2)
           {| question := "Q"; queries := []; 
              documents := [ Scenario.docA; Scenario.docA ];
              need_more := true; final_answer := ""; citations := [];
              loop_count := 1; max_iter := 2; errors := [] |}).
  - lia.
  - reflexivity.
  - reflexivity.
Defined.

Lemma run_frame_witness :
  question (initial_state "What is the capital of France?" 2)
  = question Scenario.after_failed_search
  ∧ max_iter (initial_state "What is the capital of France?" 2)
    = max_iter Scenario.after_failed_search
  ∧ loop_count (initial_state "What is the capital of France?" 2)
    ≤ loop_count Scenario.after_failed_search
  ∧ (errors (initial_state "What is the capital of France?" 2) ≠ [] →
     errors Scenario.after_failed_search ≠ []).
Proof.
  apply (run_frame Scenario.rate_limited 10
           (initial_state "What is the capital of France?" 2) 0 2
           (initial_state "What is the capital of France?" 2)
           Scenario.after_failed_search).
  - lia.
  - reflexivity.
  - reflexivity.
Defined.

Lemma errors_recorded_witness :
  errors Scenario.after_failed_search = []
  ∨ ∃ ty msg,
      errors Scenario.after_failed_search = [ mkGraphError step_generate ty msg ]
      ∨ errors Scenario.after_failed_search = [ mkGraphError step_search ty msg ].
Proof.
  apply (errors_recorded Scenario.rate_limited 10
           (initial_state "What is the capital of France?" 2)
           Scenario.after_failed_search).
  - reflexivity.
  - apply list_elem_of_further, list_elem_of_here.
Defined.

(** ** How runs end *)

Section RunEndings.

Variable env : Collaborators.

Implicit Types (s sf : GraphState) (log out pre : list Event) (n : Node).

Lemma next_node_None n s : next_node n s = None → n = synthesize.
Proof.
  destruct n; simpl; [| | |done].
  - by destruct (should_continue_after_generate s).
  - by destruct (should_continue_after_search s).
  - by destruct (should_continue_after_reflect s).
Qed.

Lemma calls_not_steps n calls :
  Forall (fun ev => is_call ev = true) calls →
  Forall (fun ev => is_step_of n ev = false) calls.
Proof. intros H. eapply Forall_impl; [exact H|]. by intros []. Qed.

Lemma run_finished fuel n s log sf :
  fst (run env fuel n s log) = Returned (Some sf) →
  ∃ out, snd (run env fuel n s log) = log ++ out ++ [ev_step synthesize sf]
         ∧ Forall (fun ev => is_step_of synthesize ev = false) out.
Proof.
  revert n s log. induction fuel as [|fuel IH]; intros n s log; [done|].
  rewrite run_S.
  destruct (node_function_log env n s log) as (calls & Hlog & Hcalls & _).
  destruct (node_function env n s log) as [[u|e'] log1] eqn:Hnode;
    simpl in Hlog; subst log1; [|done].
  cbv zeta. destruct (next_node n (apply_update s u)) as [n'|] eqn:Hnext.
  - intros Hres. destruct (IH _ _ _ Hres) as (out & -> & Hout).
    exists (calls ++ ev_step n (apply_update s u) :: out).
    split; [by rewrite <- !app_assoc|].
    apply Forall_app. split; [by apply calls_not_steps|].
    constructor; [|done]. by destruct n.
  - apply next_node_None in Hnext as ->. simpl. intros [= <-].
    exists calls. split; [by rewrite <- app_assoc|].
    by apply calls_not_steps.
Qed.

(** A run that reaches [END] ran synthesis exactly once, as its last step,
    and returns the state synthesis left. *)
Theorem finished_run_ends_with_synthesis (fuel : nat) (s0 sf : GraphState) :
  fst (invoke env fuel s0) = Returned (Some sf) →
  ∃ pre, snd (invoke env fuel s0) = pre ++ [ev_step synthesize sf]
         ∧ Forall (fun ev => is_step_of synthesize ev = false) pre.
Proof.
  intros Hres. destruct (run_finished _ _ _ _ _ Hres) as (out & Hlog & Hout).
  exists out. by split.
Qed.

Lemma steps_app log1 log2 : steps (log1 ++ log2) = steps log1 ++ steps log2.
Proof. unfold steps. by rewrite omap_app. Qed.

Lemma steps_calls calls :
  Forall (fun ev => is_call ev = true) calls → steps calls = [].
Proof.
  induction 1 as [|ev calls Hev _ IH]; [done|].
  destruct ev; [|done]. exact IH.
Qed.

Lemma run_length fuel n s log :
  ∃ out, snd (run env fuel n s log) = log ++ out
         ∧ (length (steps out) ≤ nodes_left n s)%nat.
Proof.
  revert n s log. induction fuel as [|fuel IH]; intros n s log.
  - exists []. simpl. rewrite app_nil_r. split; [done|lia].
  - rewrite run_S.
    destruct (node_function_log env n s log) as (calls & Hlog & Hcalls & _).
    destruct (node_function env n s log) as [[u|e'] log1] eqn:Hnode;
      simpl in Hlog; subst log1.
    + cbv zeta.
      destruct (next_node n (apply_update s u)) as [n'|] eqn:Hnext.
      * destruct (IH n' (apply_update s u)
                    ((log ++ calls) ++ [ev_step n (apply_update s u)]))
          as (out & -> & Hle).
        exists (calls ++ ev_step n (apply_update s u) :: out).
        split; [by rewrite <- !app_assoc|].
        rewrite steps_app, (steps_calls _ Hcalls). simpl.
        assert (fst (node_function env n s log) = Returned u) as Hu
            by (by rewrite Hnode).
        pose proof (next_node_nodes env _ _ _ _ _ Hu Hnext). lia.
      * exists (calls ++ [ev_step n (apply_update s u)]).
        simpl. split; [by rewrite <- app_assoc|].
        rewrite steps_app, (steps_calls _ Hcalls). simpl.
        destruct n; simpl; lia.
    + exists calls. simpl. split; [done|].
      rewrite (steps_calls _ Hcalls). simpl. lia.
Qed.

(** A run executes at most [4 + 2 * max 0 (max_iter - loop_count - 1)] nodes,
    and with that much fuel it reaches [END] or raises: it is never cut
    short. *)
Theorem invoke_terminates (fuel : nat) (s0 : GraphState) :
  (length (steps (snd (invoke env fuel s0)))
   ≤ 4 + 2 * Z.to_nat (Z.max 0 (max_iter s0 - loop_count s0 - 1)))%nat
  ∧ ((4 + 2 * Z.to_nat (Z.max 0 (max_iter s0 - loop_count s0 - 1)) ≤ fuel)%nat →
     fst (invoke env fuel s0) ≠ Returned None).
Proof.
  assert (nodes_left generate_queries s0
          = (4 + 2 * Z.to_nat (Z.max 0 (max_iter s0 - loop_count s0 - 1)))%nat)
    as Hn by (unfold nodes_left; lia).
  rewrite <- Hn. split.
  - destruct (run_length fuel generate_queries s0 []) as (out & Hout & Hle).
    unfold invoke. simpl in Hout. by rewrite Hout.
  - apply run_total.
Qed.

End RunEndings.

Lemma finished_run_ends_with_synthesis_witness :
  ∃ pre,
    snd (invoke Scenario.rate_limited 10
           (initial_state "What is the capital of France?" 2))
    = pre ++ [ev_step synthesize (apologised Scenario.after_failed_search)]
    ∧ Forall (fun ev => is_step_of synthesize ev = false) pre.
Proof.
  apply (finished_run_ends_with_synthesis Scenario.rate_limited 10
           (initial_state "What is the capital of France?" 2)
           (apologised Scenario.after_failed_search)).
  reflexivity.
Defined.

Lemma invoke_terminates_witness :
  (length (steps (snd (invoke Scenario.eager 10 (initial_state "Q" 2)))) ≤ 6)%nat
  ∧ fst (invoke Scenario.eager 10 (initial_state "Q" 2)) ≠ Returned None.
Proof.
  destruct (invoke_terminates Scenario.eager 10 (initial_state "Q" 2))
    as [Hlen Hend].
  split; [exact Hlen|]. apply Hend. simpl. lia.
Defined.

(** ** The loop counter *)

Section LoopCounter.

Variable env : Collaborators.

Implicit Types (s sf : GraphState) (log out : list Event) (n : Node).

Lemma reflect_steps_app log1 log2 :
  reflect_steps (log1 ++ log2) = (reflect_steps log1 + reflect_steps log2)%nat.
Proof. unfold reflect_steps. by rewrite filter_app, length_app. Qed.

Lemma reflect_steps_calls calls :
  Forall (fun ev => is_call ev = true) calls → reflect_steps calls = 0%nat.
Proof.
  unfold reflect_steps. induction 1 as [|ev calls Hev _ IH]; [done|].
  rewrite filter_cons_False; [done|]. by destruct ev.
Qed.

Lemma reflect_steps_step n s :
  reflect_steps [ev_step n s] = match n with reflect => 1 | _ => 0 end%nat.
Proof. by destruct n. Qed.

Lemma run_loop_count fuel n s log sf :
  fst (run env fuel n s log) = Returned (Some sf) →
  ∃ out, snd (run env fuel n s log) = log ++ out
         ∧ loop_count sf = loop_count s + Z.of_nat (reflect_steps out).
Proof.
  revert n s log. induction fuel as [|fuel IH]; intros n s log; [done|].
  rewrite run_S.
  destruct (node_function_log env n s log) as (calls & Hlog & Hcalls & _).
  destruct (node_function env n s log) as [[u|e'] log1] eqn:Hnode;
    simpl in Hlog; subst log1; [|done].
  assert (fst (node_function env n s log) = Returned u) as Hu
      by (by rewrite Hnode).
  destruct (node_function_budget env _ _ _ _ Hu) as [_ Hlc].
  cbv zeta. destruct (next_node n (apply_update s u)) as [n'|] eqn:Hnext.
  - intros Hres. destruct (IH _ _ _ Hres) as (out & -> & Hout).
    exists (calls ++ ev_step n (apply_update s u) :: out).
    split; [by rewrite <- !app_assoc|].
    rewrite reflect_steps_app, (reflect_steps_calls _ Hcalls).
    change (ev_step n (apply_update s u) :: out)
      with ([ev_step n (apply_update s u)] ++ out).
    rewrite reflect_steps_app, reflect_steps_step, Hout, Hlc.
    clear. destruct n; lia.
  - apply next_node_None in Hnext. subst n. simpl. intros [= <-].
    exists (calls ++ [ev_step synthesize (apply_update s u)]).
    split; [by rewrite <- app_assoc|].
    rewrite reflect_steps_app, (reflect_steps_calls _ Hcalls), Hlc.
    rewrite reflect_steps_step. lia.
Qed.

(** Searches and reflections alternate, whatever node the graph is at. *)
Lemma run_alternates fuel n s log :
  ∃ out, snd (run env fuel n s log) = log ++ out
         ∧ match n with
           | generate_queries | web_search =>
               (reflect_steps out ≤ web_search_steps out ≤ S (reflect_steps out))%nat
           | reflect =>
               (web_search_steps out ≤ reflect_steps out ≤ S (web_search_steps out))%nat
           | synthesize =>
               web_search_steps out = 0%nat ∧ reflect_steps out = 0%nat
           end.
Proof.
  revert n s log. induction fuel as [|fuel IH]; intros n s log.
  - exists []. simpl. rewrite app_nil_r. split; [done|].
    unfold web_search_steps, reflect_steps. destruct n; simpl; lia.
  - rewrite run_S.
    destruct (node_function_log env n s log) as (calls & Hlog & Hcalls & _).
    pose proof (web_search_steps_calls _ Hcalls) as Hws.
    pose proof (reflect_steps_calls _ Hcalls) as Hrs.
    destruct (node_function env n s log) as [[u|e'] log1] eqn:Hnode;
      simpl in Hlog; subst log1.
    + cbv zeta.
      destruct (next_node n (apply_update s u)) as [n'|] eqn:Hnext.
      * destruct (IH n' (apply_update s u)
                    ((log ++ calls) ++ [ev_step n (apply_update s u)]))
          as (out & -> & Halt).
        exists (calls ++ ev_step n (apply_update s u) :: out).
        split; [by rewrite <- !app_assoc|].
        rewrite web_search_steps_app, reflect_steps_app, Hws, Hrs.
        change (ev_step n (apply_update s u) :: out)
          with ([ev_step n (apply_update s u)] ++ out).
        rewrite web_search_steps_app, reflect_steps_app.
        rewrite web_search_steps_step, reflect_steps_step.
        destruct n; cbn [next_node] in Hnext.
        -- destruct (should_continue_after_generate _); simplify_eq; lia.
        -- destruct (should_continue_after_search _); simplify_eq; lia.
        -- destruct (should_continue_after_reflect _); simplify_eq; lia.
        -- done.
      * apply next_node_None in Hnext. subst n.
        exists (calls ++ [ev_step synthesize (apply_update s u)]).
        simpl. split; [by rewrite <- app_assoc|].
        rewrite web_search_steps_app, reflect_steps_app, Hws, Hrs.
        by rewrite web_search_steps_step, reflect_steps_step.
    + exists calls. simpl. split; [done|]. rewrite Hws, Hrs.
      destruct n; lia.
Qed.

(** The loop counter of the state a run returns is the initial one plus the
    number of reflection steps that ran; and at any point of any run the
    number of reflection steps is the number of web-search steps or one
    less. *)
Theorem loop_count_counts_reflections (fuel : nat) (s0 : GraphState) :
  (∀ sf, fst (invoke env fuel s0) = Returned (Some sf) →
         loop_count sf
         = loop_count s0 + Z.of_nat (reflect_steps (snd (invoke env fuel s0))))
  ∧ (reflect_steps (snd (invoke env fuel s0))
     ≤ web_search_steps (snd (invoke env fuel s0))
     ≤ S (reflect_steps (snd (invoke env fuel s0))))%nat.
Proof.
  split.
  - intros sf Hres.
    destruct (run_loop_count _ _ _ _ _ Hres) as (out & Hout & Hlc).
    unfold invoke. simpl in Hout. by rewrite Hout.
  - destruct (run_alternates fuel generate_queries s0 []) as (out & Hout & Halt).
    unfold invoke. simpl in Hout. by rewrite Hout.
Qed.

End LoopCounter.

Lemma loop_count_counts_reflections_witness :
  2 = loop_count (initial_state "Q" 2)
      + Z.of_nat (reflect_steps (snd (invoke Scenario.eager 10 (initial_state "Q" 2)))).
Proof.
  destruct (loop_count_counts_reflections Scenario.eager 10 (initial_state "Q" 2))
    as [Hlc _].
  exact (Hlc {| question := "Q"; queries := [ "more" ];
                documents := [ Scenario.docA; Scenario.docA ];
                need_more := true; final_answer := "Paris.[1]";
                citations := [ mkCitation 1 "url1" "A" ];
                loop_count := 2; max_iter := 2; errors := [] |} eq_refl).
Defined.

(** ** Whole runs *)

Section WholeRuns.

Implicit Types (env : Collaborators) (q : string) (k : Z) (qs : list string).

Lemma run_nothing_found env q k (fuel : nat) qs :
  (3 ≤ fuel)%nat →
  generate_chain env [] q = Returned qs →
  (∀ log, search_calls log = 0%nat → search_tool env log qs = Returned []) →
  ∃ sf log,
    invoke env fuel (initial_state q k) = (Returned (Some sf), log)
    ∧ final_answer sf = no_information_answer
    ∧ citations sf = []
    ∧ errors sf = []
    ∧ need_more sf = false
    ∧ filter (fun ev => is_call ev = true) log
      = [ ev_call (call_generate q); ev_call (call_search qs) ].
Proof.
  intros Hfuel Hgen Hsearch.
  destruct fuel as [|[|[|fuel]]]; try lia. clear Hfuel.
  unfold invoke. rewrite run_S. cbn [node_function].
  rewrite (generate_queries_node_returned env (initial_state q k) [] qs Hgen).
  cbv zeta. cbn [next_node].
  change (should_continue_after_generate
            (apply_update (initial_state q k) (set_queries qs))) with next_step.
  cbv iota. rewrite run_S. cbn [node_function].
  rewrite (web_search_node_returned env _ _ []) by (by apply Hsearch).
  cbv zeta. cbn [next_node].
  match goal with
  | |- context [should_continue_after_search ?s] =>
      change (should_continue_after_search s) with end_step
  end.
  cbv iota. rewrite run_S. cbn [node_function].
  rewrite synthesize_node_empty by done.
  cbv zeta. cbn [next_node].
  eexists _, _. split; [reflexivity|]. by split_and!.
Qed.

(** When the first search round finds nothing, the run ends after three
    nodes with "No information found.", no citation and no error; neither the
    reflection chain nor the synthesis chain is called. *)
Theorem no_results_run env q k (fuel : nat) qs :
  (3 ≤ fuel)%nat →
  generate_chain env [] q = Returned qs →
  (∀ log, search_calls log = 0%nat → search_tool env log qs = Returned []) →
  ∃ sf log,
    invoke env fuel (initial_state q k) = (Returned (Some sf), log)
    ∧ final_answer sf = no_information_answer
    ∧ citations sf = []
    ∧ errors sf = []
    ∧ need_more sf = false
    ∧ filter (fun ev => is_call ev = true) log
      = [ ev_call (call_generate q); ev_call (call_search qs) ].
Proof.
  intros Hfuel Hgen Hsearch.
  destruct (run_nothing_found env q k fuel qs Hfuel Hgen Hsearch)
    as (sf & log & Hrun).
  by exists sf, log.
Qed.

Lemma web_search_tool_nothing (environ : gmap string string) (tavily : Tavily)
    qs :
  getenv_truthy environ "TAVILY_API_KEY" = false
  ∨ (∀ task q', (∃ e, TavilySearch tavily task = Raised e)
                ∨ (∃ e, arun tavily task q' = Raised e)) →
  web_search_tool environ tavily qs = [].
Proof.
  intros Hwhy. unfold web_search_tool, WebSearchTool.run_concurrent.
  rewrite flatten_nothing_found; [done|].
  apply gather_Forall. intros i q'. unfold search_func.
  destruct (getenv_truthy environ "TAVILY_API_KEY") eqn:Hkey; [|done].
  destruct Hwhy as [|Hfail]; [done|].
  unfold tavily_web_search. rewrite Hkey. simpl.
  destruct (Hfail i q') as [[e He]|[e He]].
  - by rewrite He.
  - destruct (TavilySearch tavily i) as [[]|e']; simpl; [|done]. by rewrite He.
Qed.

(** With the module's own search tool and no usable [TAVILY_API_KEY], every
    run in which query generation succeeds answers "No information found.",
    without an error and without calling reflection or synthesis. *)
Theorem run_without_search_key env (environ : gmap string string)
    (tavily : list Event -> Tavily) q k (fuel : nat) qs :
  (3 ≤ fuel)%nat →
  generate_chain env [] q = Returned qs →
  getenv_truthy environ "TAVILY_API_KEY" = false →
  ∃ sf log,
    invoke (with_web_search_tool environ tavily env) fuel (initial_state q k)
    = (Returned (Some sf), log)
    ∧ final_answer sf = no_information_answer
    ∧ citations sf = []
    ∧ errors sf = [].
Proof.
  intros Hfuel Hgen Hkey.
  destruct (run_nothing_found (with_web_search_tool environ tavily env)
              q k fuel qs Hfuel Hgen) as (sf & log & Hrun & Ha & Hc & He & _).
  - intros log _. simpl. f_equal. apply web_search_tool_nothing. by left.
  - by exists sf, log.
Qed.

(** With the module's own search tool, a first round in which every search
    fails (the Tavily client cannot be built, or its call raises) is not
    reported as an error: the run records none and answers "No information
    found.", not the error text. *)
Theorem failed_searches_are_not_reported env (environ : gmap string string)
    (tavily : list Event -> Tavily) q k (fuel : nat) qs :
  (3 ≤ fuel)%nat →
  generate_chain env [] q = Returned qs →
  (∀ log task q', (∃ e, TavilySearch (tavily log) task = Raised e)
                  ∨ (∃ e, arun (tavily log) task q' = Raised e)) →
  ∃ sf log,
    invoke (with_web_search_tool environ tavily env) fuel (initial_state q k)
    = (Returned (Some sf), log)
    ∧ final_answer sf = no_information_answer
    ∧ final_answer sf ≠ error_answer
    ∧ citations sf = []
    ∧ errors sf = [].
Proof.
  intros Hfuel Hgen Hfail.
  destruct (run_nothing_found (with_web_search_tool environ tavily env)
              q k fuel qs Hfuel Hgen) as (sf & log & Hrun & Ha & Hc & He & _).
  - intros log _. simpl. f_equal. apply web_search_tool_nothing.
    right. apply Hfail.
  - exists sf, log. split_and!; try done. by rewrite Ha.
Qed.

End WholeRuns.

Lemma no_results_run_witness :
  ∃ sf log,
    invoke (with_web_search_tool Scenario.no_key (fun _ => Scenario.tavily_up)
              Scenario.eager) 10 (initial_state "Q" 2)
    = (Returned (Some sf), log)
    ∧ final_answer sf = no_information_answer
    ∧ citations sf = []
    ∧ errors sf = []
    ∧ need_more sf = false
    ∧ filter (fun ev => is_call ev = true) log
      = [ ev_call (call_generate "Q"); ev_call (call_search [ "q" ]) ].
Proof.
  apply (no_results_run
           (with_web_search_tool Scenario.no_key (fun _ => Scenario.tavily_up)
              Scenario.eager) "Q" 2 10 [ "q" ]).
  - lia.
  - reflexivity.
  - intros log _. reflexivity.
Defined.

Lemma run_without_search_key_witness :
  ∃ sf log,
    invoke (with_web_search_tool Scenario.no_key (fun _ => Scenario.tavily_up)
              Scenario.eager) 10 (initial_state "Q" 2)
    = (Returned (Some sf), log)
    ∧ final_answer sf = no_information_answer
    ∧ citations sf = []
    ∧ errors sf = [].
Proof.
  apply (run_without_search_key Scenario.eager Scenario.no_key
           (fun _ => Scenario.tavily_up) "Q" 2 10 [ "q" ]).
  - lia.
  - reflexivity.
  - reflexivity.
Defined.

Lemma failed_searches_are_not_reported_witness :
  ∃ sf log,
    invoke (with_web_search_tool Scenario.with_key (fun _ => Scenario.tavily_down)
              Scenario.eager) 10 (initial_state "Q" 2)
    = (Returned (Some sf), log)
    ∧ final_answer sf = no_information_answer
    ∧ final_answer sf ≠ error_answer
    ∧ citations sf = []
    ∧ errors sf = [].
Proof.
  apply (failed_searches_are_not_reported Scenario.eager Scenario.with_key
           (fun _ => Scenario.tavily_down) "Q" 2 10 [ "q" ]).
  - lia.
  - reflexivity.
  - intros log task q'. right. by eexists.
Defined.

(** ** Rounds that find documents *)

Section FruitfulRuns.

Variable env : Collaborators.

(** One fruitful round.  Query generation succeeds, the first search finds
    documents, and reflection either asks for nothing more or [max_iter] is
    at most 1: the search tool is invoked once, the synthesis chain sees
    exactly the documents found, and the run returns its answer with the
    markers appended and then stripped, and the remapped citations.  The
    loop counter ends at 1 and [need_more] holds what reflection said, even
    when the cap stopped the loop. *)
Theorem single_round_run (q : string) (k : Z) (fuel : nat) (qs : list string)
    (docs : list Document) (r : ReflectOutput) (a : SynthesizeOutput) :
  (4 ≤ fuel)%nat →
  generate_chain env [] q = Returned qs →
  (∀ log, search_calls log = 0%nat → search_tool env log qs = Returned docs) →
  docs ≠ [] →
  (∀ log, reflect_chain env log q docs = Returned r) →
  ro_need_more r = false ∨ k ≤ 1 →
  (∀ log, synthesize_chain env log q docs = Returned a) →
  ∃ sf log,
    invoke env fuel (initial_state q k) = (Returned (Some sf), log)
    ∧ final_answer sf
      = PyStr.strip (answer a +:+ citation_string_at_end docs (cited_ids a))
    ∧ citations sf = final_citations_list (remap docs (cited_ids a))
    ∧ documents sf = docs
    ∧ loop_count sf = 1
    ∧ need_more sf = ro_need_more r
    ∧ errors sf = []
    ∧ filter (fun ev => is_call ev = true) log
      = [ ev_call (call_generate q); ev_call (call_search qs);
          ev_call (call_reflect q docs); ev_call (call_synthesize q docs) ].
Proof.
  intros Hfuel Hgen Hsearch Hdocs Hreflect Hstop Hsyn.
  destruct fuel as [|[|[|[|fuel]]]]; try lia. clear Hfuel.
  destruct docs as [|d docs']; [done|]. clear Hdocs.
  unfold invoke. rewrite run_S. cbn [node_function].
  rewrite (generate_queries_node_returned env (initial_state q k) [] qs Hgen).
  cbv zeta. cbn [next_node].
  change (should_continue_after_generate
            (apply_update (initial_state q k) (set_queries qs))) with next_step.
  cbv iota. rewrite run_S. cbn [node_function].
  rewrite (web_search_node_returned env _ _ (d :: docs')) by (by apply Hsearch).
  cbv zeta. cbn [next_node].
  match goal with
  | |- context [should_continue_after_search ?s] =>
      change (should_continue_after_search s) with next_step
  end.
  cbv iota. rewrite run_S. cbn [node_function].
  rewrite (reflect_node_returned env _ _ r) by apply Hreflect.
  cbv zeta. cbn [next_node].
  match goal with
  | |- context [should_continue_after_reflect ?s] =>
      assert (should_continue_after_reflect s = end_step) as ->
  end.
  { unfold should_continue_after_reflect. simpl.
    destruct Hstop as [->|Hk]; [done|].
    destruct (ro_need_more r); [|done]. simpl.
    destruct (Z.ltb_spec (0 + 1) k); [lia|done]. }
  rewrite run_S. cbn [node_function].
  rewrite (synthesize_node_returned env _ _ a); [|done|done|apply Hsyn].
  cbv zeta. cbn [next_node].
  eexists _, _. split; [reflexivity|]. by split_and!.
Qed.

End FruitfulRuns.

Lemma single_round_run_witness :
  ∃ sf log,
    invoke Scenario.eager 10 (initial_state "Q" 1) = (Returned (Some sf), log)
    ∧ final_answer sf
      = PyStr.strip ("Paris." +:+ citation_string_at_end [ Scenario.docA ] [ 1 ])
    ∧ citations sf = final_citations_list (remap [ Scenario.docA ] [ 1 ])
    ∧ documents sf = [ Scenario.docA ]
    ∧ loop_count sf = 1
    ∧ need_more sf = true
    ∧ errors sf = []
    ∧ filter (fun ev => is_call ev = true) log
      = [ ev_call (call_generate "Q"); ev_call (call_search [ "q" ]);
          ev_call (call_reflect "Q" [ Scenario.docA ]);
          ev_call (call_synthesize "Q" [ Scenario.docA ]) ].
Proof.
  apply (single_round_run Scenario.eager "Q" 1 10 [ "q" ] [ Scenario.docA ]
           (mkReflectOutput true (Some [ "more" ]))
           (mkSynthesizeOutput "Paris." [ 1 ])).
  - lia.
  - reflexivity.
  - intros log _. reflexivity.
  - discriminate.
  - intros log. reflexivity.
  - right. lia.
  - intros log. reflexivity.
Defined.

Section TwoRounds.

Variable env : Collaborators.

(** Two rounds.  When the first reflection asks for more and [max_iter] is
    at least 2, the second search is run with the queries reflection proposed
    (none, if it proposed none), its documents are appended to those of the
    first round, and the second reflection and the synthesis chain see both
    rounds' documents in that order; the run then ends if reflection is
    satisfied or [max_iter] is 2, with the loop counter at 2. *)
Theorem two_round_run (q : string) (k : Z) (fuel : nat) (qs : list string)
    (docs1 docs2 : list Document) (r1 r2 : ReflectOutput)
    (a : SynthesizeOutput) :
  (6 ≤ fuel)%nat →
  generate_chain env [] q = Returned qs →
  (∀ log, search_calls log = 0%nat → search_tool env log qs = Returned docs1) →
  docs1 ≠ [] →
  (∀ log, search_calls log = 1%nat →
          reflect_chain env log q docs1 = Returned r1) →
  ro_need_more r1 = true → 2 ≤ k →
  (∀ log, search_calls log = 1%nat →
          search_tool env log (default [] (ro_new_queries r1)) = Returned docs2) →
  (∀ log, search_calls log = 2%nat →
          reflect_chain env log q (docs1 ++ docs2) = Returned r2) →
  ro_need_more r2 = false ∨ k ≤ 2 →
  (∀ log, synthesize_chain env log q (docs1 ++ docs2) = Returned a) →
  ∃ sf log,
    invoke env fuel (initial_state q k) = (Returned (Some sf), log)
    ∧ documents sf = docs1 ++ docs2
    ∧ loop_count sf = 2
    ∧ final_answer sf
      = PyStr.strip (answer a
                     +:+ citation_string_at_end (docs1 ++ docs2) (cited_ids a))
    ∧ citations sf = final_citations_list (remap (docs1 ++ docs2) (cited_ids a))
    ∧ filter (fun ev => is_call ev = true) log
      = [ ev_call (call_generate q); ev_call (call_search qs);
          ev_call (call_reflect q docs1);
          ev_call (call_search (default [] (ro_new_queries r1)));
          ev_call (call_reflect q (docs1 ++ docs2));
          ev_call (call_synthesize q (docs1 ++ docs2)) ].
Proof.
  intros Hfuel Hgen Hsearch1 Hdocs Hreflect1 Hmore Hk Hsearch2 Hreflect2
    Hstop Hsyn.
  do 6 (destruct fuel as [|fuel]; [lia|]). clear Hfuel.
  destruct docs1 as [|d docs1']; [done|]. clear Hdocs.
  unfold invoke. rewrite run_S. cbn [node_function].
  rewrite (generate_queries_node_returned env (initial_state q k) [] qs Hgen).
  cbv zeta. cbn [next_node].
  change (should_continue_after_generate
            (apply_update (initial_state q k) (set_queries qs))) with next_step.
  cbv iota. rewrite run_S. cbn [node_function].
  rewrite (web_search_node_returned env _ _ (d :: docs1'))
    by (by apply Hsearch1).
  cbv zeta. cbn [next_node].
  match goal with
  | |- context [should_continue_after_search ?s] =>
      change (should_continue_after_search s) with next_step
  end.
  cbv iota. rewrite run_S. cbn [node_function].
  rewrite (reflect_node_returned env _ _ r1) by (by apply Hreflect1).
  cbv zeta. cbn [next_node].
  match goal with
  | |- context [should_continue_after_reflect ?s] =>
      assert (should_continue_after_reflect s = next_step) as ->
  end.
  { unfold should_continue_after_reflect. simpl. rewrite Hmore. simpl.
    destruct (Z.ltb_spec (0 + 1) k); [done|lia]. }
  rewrite run_S. cbn [node_function].
  rewrite (web_search_node_returned env _ _ docs2) by (by apply Hsearch2).
  cbv zeta. cbn [next_node].
  match goal with
  | |- context [should_continue_after_search ?s] =>
      change (should_continue_after_search s) with next_step
  end.
  cbv iota. rewrite run_S. cbn [node_function].
  rewrite (reflect_node_returned env _ _ r2) by (by apply Hreflect2).
  cbv zeta. cbn [next_node].
  match goal with
  | |- context [should_continue_after_reflect ?s] =>
      assert (should_continue_after_reflect s = end_step) as ->
  end.
  { unfold should_continue_after_reflect. simpl.
    destruct Hstop as [->|Hk2]; [done|].
    destruct (ro_need_more r2); [|done]. simpl.
    destruct (Z.ltb_spec (0 + 1 + 1) k); [lia|done]. }
  rewrite run_S. cbn [node_function].
  rewrite (synthesize_node_returned env _ _ a); [|done|done|apply Hsyn].
  cbv zeta. cbn [next_node].
  eexists _, _. split; [reflexivity|]. by split_and!.
Qed.

End TwoRounds.

Lemma two_round_run_witness :
  ∃ sf log,
    invoke Scenario.eager 10 (initial_state "Q" 2) = (Returned (Some sf), log)
    ∧ documents sf = [ Scenario.docA ] ++ [ Scenario.docA ]
    ∧ loop_count sf = 2
    ∧ final_answer sf
      = PyStr.strip ("Paris."
                     +:+ citation_string_at_end
                           ([ Scenario.docA ] ++ [ Scenario.docA ]) [ 1 ])
    ∧ citations sf
      = final_citations_list
          (remap ([ Scenario.docA ] ++ [ Scenario.docA ]) [ 1 ])
    ∧ filter (fun ev => is_call ev = true) log
      = [ ev_call (call_generate "Q"); ev_call (call_search [ "q" ]);
          ev_call (call_reflect "Q" [ Scenario.docA ]);
          ev_call (call_search [ "more" ]);
          ev_call (call_reflect "Q" ([ Scenario.docA ] ++ [ Scenario.docA ]));
          ev_call (call_synthesize "Q" ([ Scenario.docA ] ++ [ Scenario.docA ])) ].
Proof.
  apply (two_round_run Scenario.eager "Q" 2 10 [ "q" ]
           [ Scenario.docA ] [ Scenario.docA ]
           (mkReflectOutput true (Some [ "more" ]))
           (mkReflectOutput true (Some [ "more" ]))
           (mkSynthesizeOutput "Paris." [ 1 ])).
  - lia.
  - reflexivity.
  - intros log _. reflexivity.
  - discriminate.
  - intros log _. reflexivity.
  - reflexivity.
  - lia.
  - intros log _. reflexivity.
  - intros log _. reflexivity.
  - right. lia.
  - intros log. reflexivity.
Defined.

(** ** The command line *)

Section CommandLine.

Variable env : Collaborators.

(** With a question on the command line (further arguments are ignored) and
    room for six nodes, the process searches at most twice, runs at most six
    nodes, and either prints the answer and citations of the state the graph
    returned or, when the graph raised, exits with status 1 having printed
    nothing; it is never stopped for running too long. *)
Theorem run_agent_with_question (fuel : nat) (prog question : string)
    (rest : list string) :
  (6 ≤ fuel)%nat →
  let run := invoke env fuel (initial_state question MAX_ITER) in
  let res := run_agent env fuel (prog :: question :: rest) in
  snd res = snd run
  ∧ (search_calls (snd res) ≤ 2)%nat
  ∧ (length (steps (snd res)) ≤ 6)%nat
  ∧ ((∃ sf, fst run = Returned (Some sf)
            ∧ fst res = printed (final_answer sf) (citations sf))
     ∨ (∃ e, fst run = Raised e ∧ fst res = exited 1 [])).
Proof.
  intros Hfuel. cbv zeta. unfold run_agent.
  pose proof (run_total env fuel generate_queries (initial_state question MAX_ITER) [])
    as Htotal.
  destruct (run_rounds env fuel generate_queries (initial_state question MAX_ITER) [])
    as (out & Hout & _ & Hrounds).
  destruct (run_length env fuel generate_queries (initial_state question MAX_ITER) [])
    as (out' & Hout' & Hlen).
  simpl in Hout, Hout'. rewrite Hout in Hout'. subst out'.
  unfold invoke in *.
  destruct (run env fuel generate_queries (initial_state question MAX_ITER) [])
    as [[[sf|]|e] log] eqn:Hrun; simpl in *; subst log.
  - split_and!; [done|exact Hrounds|exact Hlen|]. left. by exists sf.
  - exfalso. by apply Htotal.
  - split_and!; [done|exact Hrounds|exact Hlen|]. right. by exists e.
Qed.

(** When the reflection chain fails after a search that found documents, the
    process exits with status 1 and prints nothing: no apology and no
    answer reach the user. *)
Theorem run_agent_silent_on_reflection_failure (fuel : nat)
    (prog question : string) (rest : list string) (qs : list string)
    (docs : list Document) (e : Exc) :
  (3 ≤ fuel)%nat →
  generate_chain env [] question = Returned qs →
  (∀ log, search_calls log = 0%nat → search_tool env log qs = Returned docs) →
  docs ≠ [] →
  (∀ log, reflect_chain env log question docs = Raised e) →
  fst (run_agent env fuel (prog :: question :: rest)) = exited 1 []
  ∧ last (snd (run_agent env fuel (prog :: question :: rest)))
    = Some (ev_call (call_reflect question docs)).
Proof.
  intros Hfuel Hgen Hsearch Hdocs Hreflect.
  destruct fuel as [|[|[|fuel]]]; try lia. clear Hfuel.
  destruct docs as [|d docs']; [done|]. clear Hdocs.
  unfold run_agent, invoke. rewrite run_S. cbn [node_function].
  rewrite (generate_queries_node_returned env (initial_state question MAX_ITER)
             [] qs Hgen).
  cbv zeta. cbn [next_node].
  change (should_continue_after_generate
            (apply_update (initial_state question MAX_ITER) (set_queries qs)))
    with next_step.
  cbv iota. rewrite run_S. cbn [node_function].
  rewrite (web_search_node_returned env _ _ (d :: docs')) by (by apply Hsearch).
  cbv zeta. cbn [next_node].
  match goal with
  | |- context [should_continue_after_search ?s] =>
      change (should_continue_after_search s) with next_step
  end.
  cbv iota. rewrite run_S. cbn [node_function].
  rewrite (reflect_node_raised env _ _ e) by apply Hreflect.
  done.
Qed.

End CommandLine.

Lemma run_agent_with_question_witness :
  snd (run_agent Scenario.eager 25 [ "agent"; "Q" ])
  = snd (invoke Scenario.eager 25 (initial_state "Q" MAX_ITER))
  ∧ (search_calls (snd (run_agent Scenario.eager 25 [ "agent"; "Q" ])) ≤ 2)%nat
  ∧ (length (steps (snd (run_agent Scenario.eager 25 [ "agent"; "Q" ]))) ≤ 6)%nat
  ∧ ((∃ sf, fst (invoke Scenario.eager 25 (initial_state "Q" MAX_ITER))
            = Returned (Some sf)
            ∧ fst (run_agent Scenario.eager 25 [ "agent"; "Q" ])
              = printed (final_answer sf) (citations sf))
     ∨ (∃ e, fst (invoke Scenario.eager 25 (initial_state "Q" MAX_ITER))
             = Raised e
             ∧ fst (run_agent Scenario.eager 25 [ "agent"; "Q" ])
               = exited 1 [])).
Proof.
  apply (run_agent_with_question Scenario.eager 25 "agent" "Q" []).
  lia.
Defined.

Lemma run_agent_silent_on_reflection_failure_witness :
  fst (run_agent Scenario.reflect_fails 25 [ "agent"; "Q" ]) = exited 1 []
  ∧ last (snd (run_agent Scenario.reflect_fails 25 [ "agent"; "Q" ]))
    = Some (ev_call (call_reflect "Q" [ Scenario.docA ])).
Proof.
  apply (run_agent_silent_on_reflection_failure Scenario.reflect_fails 25
           "agent" "Q" [] [ "q" ] [ Scenario.docA ] Scenario.quota).
  - lia.
  - reflexivity.
  - intros log _. reflexivity.
  - discriminate.
  - intros log. reflexivity.
Defined.

(** ** A rate-limited search, end to end *)

Section RateLimitedSearch.

Variable env : Collaborators.

(** C9, as the code has it.  The batch call of the search tool raises with
    429 in its text on the only search round, in a run from [main.py]'s
    initial state whose query generation succeeded.  The run ends with the
    fixed error text, no citation, [need_more] false, one [RateLimit] error
    tagged [search], and the search tool invoked once.  The text asks to try
    again later, which is what [test_agent_rate_limit_error] accepts, but it
    names neither rate limiting nor the status code, and it is the text of
    every run whose batch call raises, whatever it raises.  When the 429 is
    raised by the Tavily service inside the module's own tool, the tool
    absorbs it: the run ends with "No information found." and no error. *)
Theorem rate_limit_apology_is_generic (q : string) (k : Z) (fuel : nat)
    (qs : list string) (e : Exc) :
  (3 ≤ fuel)%nat →
  generate_chain env [] q = Returned qs →
  (∀ log, search_calls log = 0%nat → search_tool env log qs = Raised e) →
  PyStr.contains "429" (exc_str e) = true →
  (∃ sf log,
     invoke env fuel (initial_state q k) = (Returned (Some sf), log)
     ∧ final_answer sf = error_answer
     ∧ citations sf = []
     ∧ need_more sf = false
     ∧ errors sf = [ mkGraphError step_search RateLimit (exc_str e) ]
     ∧ search_calls log = 1%nat
     ∧ web_search_steps log = 1%nat
     ∧ mentions_rate_limiting (final_answer sf) = true
     ∧ PyStr.contains "try again later" (PyStr.lower (final_answer sf)) = true
     ∧ Forall (fun p => PyStr.contains p (PyStr.lower (final_answer sf)) = false)
         [ "rate limit"; "too many requests"; "temporarily unavailable";
           "service unavailable"; "429" ])
  ∧ (∀ env' q' k' qs' e',
       generate_chain env' [] q' = Returned qs' →
       (∀ log, search_calls log = 0%nat →
               search_tool env' log qs' = Raised e') →
       ∃ sf' log',
         invoke env' fuel (initial_state q' k') = (Returned (Some sf'), log')
         ∧ final_answer sf' = error_answer)
  ∧ (∀ (environ : gmap string string) (tavily : list Event -> Tavily),
       (∀ log task q', arun (tavily log) task q' = Raised e) →
       ∃ sf log,
         invoke (with_web_search_tool environ tavily env) fuel
           (initial_state q k)
         = (Returned (Some sf), log)
         ∧ final_answer sf = no_information_answer
         ∧ citations sf = []
         ∧ errors sf = []).
Proof.
  intros Hfuel Hgen Hsearch H429. split_and!.
  - destruct (run_search_raised env q k fuel qs e Hfuel Hgen Hsearch)
      as (sf & log & Hrun & Hanswer & Hcits & Hmore & Herrors & Hcalls & Hsteps).
    rewrite H429 in Herrors. simpl in Herrors.
    exists sf, log. rewrite Hanswer. split_and!; try done.
    repeat constructor.
  - intros env' q' k' qs' e' Hgen' Hsearch'.
    destruct (run_search_raised env' q' k' fuel qs' e' Hfuel Hgen' Hsearch')
      as (sf' & log' & Hrun & Hanswer & _).
    by exists sf', log'.
  - intros environ tavily Hservice.
    destruct (run_nothing_found (with_web_search_tool environ tavily env)
                q k fuel qs Hfuel Hgen)
      as (sf & log & Hrun & Hanswer & Hcits & Herrors & _).
    + intros log _. simpl. f_equal. apply web_search_tool_nothing.
      right. intros task q'. right. exists e. apply Hservice.
    + by exists sf, log.
Qed.

End RateLimitedSearch.

Lemma rate_limit_apology_is_generic_witness :
  (∃ sf log,
     invoke Scenario.rate_limited 10
       (initial_state "What is the capital of France?" 2)
     = (Returned (Some sf), log)
     ∧ final_answer sf = error_answer
     ∧ citations sf = []
     ∧ need_more sf = false
     ∧ errors sf
       = [ mkGraphError step_search RateLimit (exc_str Scenario.http_429) ]
     ∧ search_calls log = 1%nat
     ∧ web_search_steps log = 1%nat
     ∧ mentions_rate_limiting (final_answer sf) = true
     ∧ PyStr.contains "try again later" (PyStr.lower (final_answer sf)) = true
     ∧ Forall (fun p => PyStr.contains p (PyStr.lower (final_answer sf)) = false)
         [ "rate limit"; "too many requests"; "temporarily unavailable";
           "service unavailable"; "429" ])
  ∧ (∃ sf' log',
       invoke Scenario.timed_out 10
         (initial_state "What is the capital of France?" 2)
       = (Returned (Some sf'), log')
       ∧ final_answer sf' = error_answer)
  ∧ (∃ sf log,
       invoke (with_web_search_tool Scenario.with_key
                 (fun _ => Scenario.tavily_429) Scenario.rate_limited) 10
         (initial_state "What is the capital of France?" 2)
       = (Returned (Some sf), log)
       ∧ final_answer sf = no_information_answer
       ∧ citations sf = []
       ∧ errors sf = []).
Proof.
  destruct (rate_limit_apology_is_generic Scenario.rate_limited
              "What is the capital of France?" 2 10
              [ "capital of France" ] Scenario.http_429)
    as (Hrun & Hgeneric & Hown).
  - lia.
  - reflexivity.
  - intros log _. reflexivity.
  - reflexivity.
  - split; [exact Hrun|]. split.
    + apply (Hgeneric Scenario.timed_out "What is the capital of France?" 2
               [ "capital of France" ]
               (mkExc OtherException "Request timed out")).
      * reflexivity.
      * intros log _. reflexivity.
    + apply (Hown Scenario.with_key (fun _ => Scenario.tavily_429)).
      intros log task q'. reflexivity.
Defined.

(** C9 as the spec words it fails.  On the rate-limited run of the test the
    final answer is the fixed error text: lower-cased, it contains neither
    "rate limit" nor "too many requests" nor "429", and it is letter for
    letter the answer of the run whose search timed out.  And when it is the
    Tavily service that answers 429 inside the module's own tool, the answer
    is no apology at all. *)
Lemma rate_limit_answer_does_not_mention_it :
  let rate_limited := invoke Scenario.rate_limited 10
                        (initial_state "What is the capital of France?" 2) in
  let timed_out := invoke Scenario.timed_out 10
                     (initial_state "What is the capital of France?" 2) in
  let own_tool := invoke (with_web_search_tool Scenario.with_key
                            (fun _ => Scenario.tavily_429) Scenario.rate_limited)
                    10 (initial_state "What is the capital of France?" 2) in
  ∃ sf st so,
    fst rate_limited = Returned (Some sf)
    ∧ fst timed_out = Returned (Some st)
    ∧ fst own_tool = Returned (Some so)
    ∧ errors sf
      = [ mkGraphError step_search RateLimit (exc_str Scenario.http_429) ]
    ∧ PyStr.contains "rate limit" (PyStr.lower (final_answer sf)) = false
    ∧ PyStr.contains "too many requests" (PyStr.lower (final_answer sf)) = false
    ∧ PyStr.contains "429" (PyStr.lower (final_answer sf)) = false
    ∧ final_answer sf = final_answer st
    ∧ final_answer so = no_information_answer
    ∧ errors so = [].
Proof.
  cbv zeta. eexists _, _, _.
  split; [reflexivity|]. split; [reflexivity|]. split; [reflexivity|].
  by split_and!.
Qed.
